(** * boilerplate-express: request pipeline, item resource and error taxonomy

    A shallow embedding of the Express/TypeScript template:

    - [utils/apiResponse], [utils/HttpError], [utils/logger] (the part used
      by the error handler),
    - [middleware/errorMiddleware], [middleware/authMiddleware],
      [middleware/validateMiddleware] with [schemas/itemSchema],
    - [repositories/itemRepository], [services/itemService],
      [controllers/itemController], [controllers/authController].

    Promises are sequentialised: an [async] function is a computation in the
    monad [M] below, [await] is bind, a rejected promise is a thrown error.
    JavaScript numbers that the code uses as counters, identifiers and page
    sizes are integers ([Z]); the subtraction and the product of the page
    offset are rounded to the nearest double, and the one division of the
    code is done on rationals ([Q]), with the results JavaScript gives for
    a zero divisor. Strings are byte strings. *)

From stdpp Require Import gmap strings list pretty.
From Stdlib Require Import Ascii String ZArith QArith Qround Lia.

Set Warnings "-register-all".

Local Open Scope string_scope.
Local Open Scope Z_scope.

(** ** JavaScript values used by the code *)

Module Js.

(** [s.startsWith(p)] *)
Definition startsWith (p s : string) : bool := String.prefix p s.

(** [s.slice(n)] for [0 <= n]: the suffix from index [n]. *)
Definition slice (n : nat) (s : string) : string :=
  String.substring n (String.length s - n) s.

(** Truthiness of a value of type [string | undefined]. *)
Definition truthy (v : option string) : bool :=
  match v with
  | None => false
  | Some s => negb (String.eqb s "")
  end.

(** [a || b] on values of type [string | undefined]. *)
Definition or (a b : option string) : option string :=
  if truthy a then a else b.

(** [a ?? b] *)
Definition nullish {A} (a : option A) (b : A) : A :=
  match a with
  | Some x => x
  | None => b
  end.

Definition upper_ascii (c : ascii) : ascii :=
  let n := nat_of_ascii c in
  if (Nat.leb 97 n && Nat.leb n 122)%bool then ascii_of_nat (n - 32) else c.

(** [s.toUpperCase()] on a string of ASCII characters ([is_ascii] below):
    the letters a-z are mapped to A-Z and every other character is kept.
    JavaScript also maps letters outside ASCII (U+017F to S, for one);
    the statements that depend on the result are stated for ASCII
    strings. *)
Fixpoint toUpperCase (s : string) : string :=
  match s with
  | EmptyString => EmptyString
  | String c r => String (upper_ascii c) (toUpperCase r)
  end.

(** [xs.includes(x)] on an array of strings. *)
Definition includes (xs : list string) (x : string) : bool :=
  existsb (String.eqb x) xs.

(** The result of [Number(s)], as far as the schemas look at it. *)
Inductive number :=
| NaN
| Int (z : Z)
| NonInt (positive : bool).

(** Every character of the string is below U+0080. *)
Fixpoint is_ascii (s : string) : bool :=
  match s with
  | EmptyString => true
  | String c r => (Nat.ltb (nat_of_ascii c) 128 && is_ascii r)%bool
  end.

(** [Number.MAX_SAFE_INTEGER] *)
Definition MAX_SAFE_INTEGER : Z := 2 ^ 53 - 1.

(** The double nearest to an integer (ties to even): the value a
    JavaScript number takes when an integer result does not fit the 53
    bits of the significand. Integers up to [2 ^ 53] in magnitude are
    kept. Results from [2 ^ 1024] on, which JavaScript turns into
    [Infinity], are outside this definition. *)
Definition round_double (z : Z) : Z :=
  let a := Z.abs z in
  if a <? 2 ^ 53 then z
  else
    let e := Z.log2 a - 52 in
    let q := a / 2 ^ e in
    let r := a mod 2 ^ e in
    let half := 2 ^ (e - 1) in
    let q' := if r <? half then q
              else if half <? r then q + 1
              else if Z.even q then q else q + 1 in
    Z.sgn z * (q' * 2 ^ e).

(** [a - b] and [a * b] on numbers that hold integers. *)
Definition sub (a b : Z) : Z := round_double (a - b).

Definition mul (a b : Z) : Z := round_double (a * b).

(** The result of [Math.ceil(a / b)]. *)
Inductive ceiling :=
| Ceil (z : Z)
| Infinite (positive : bool)
| NotANumber.

End Js.

(** ** JSON payloads *)

Inductive Json :=
| JNull
| JBool (b : bool)
| JNum (z : Z)
| JStr (s : string)
| JArr (items : list Json)
| JObj (fields : list (string * Json)).

(** Truthiness of a JSON value held in a JavaScript variable. *)
Definition json_truthy (j : Json) : bool :=
  match j with
  | JNull => false
  | JBool b => b
  | JNum z => negb (z =? 0)
  | JStr s => negb (String.eqb s "")
  | JArr _ => true
  | JObj _ => true
  end.

(** ** Errors

    The classes that [errorMiddleware] tests with [instanceof]. [HttpError]
    is the repository's own class; [ZodError] comes from zod; the last three
    come from jsonwebtoken, where [TokenExpiredError] and [NotBeforeError]
    are declared with
    [X.prototype = Object.create(JsonWebTokenError.prototype)]. *)

Inductive ErrorClass :=
| ClsError
| ClsHttpError
| ClsZodError
| ClsJsonWebTokenError
| ClsTokenExpiredError
| ClsNotBeforeError.

Definition ErrorClass_eqb (a b : ErrorClass) : bool :=
  match a, b with
  | ClsError, ClsError
  | ClsHttpError, ClsHttpError
  | ClsZodError, ClsZodError
  | ClsJsonWebTokenError, ClsJsonWebTokenError
  | ClsTokenExpiredError, ClsTokenExpiredError
  | ClsNotBeforeError, ClsNotBeforeError => true
  | _, _ => false
  end.

(** The class a class extends ([None] for the root [Error]). *)
Definition superclass (c : ErrorClass) : option ErrorClass :=
  match c with
  | ClsError => None
  | ClsHttpError => Some ClsError
  | ClsZodError => Some ClsError
  | ClsJsonWebTokenError => Some ClsError
  | ClsTokenExpiredError => Some ClsJsonWebTokenError
  | ClsNotBeforeError => Some ClsJsonWebTokenError
  end.

(** Walks the prototype chain; the hierarchy has depth three. *)
Fixpoint chain_has (fuel : nat) (c target : ErrorClass) : bool :=
  if ErrorClass_eqb c target then true
  else match fuel with
       | O => false
       | S k => match superclass c with
                | Some p => chain_has k p target
                | None => false
                end
       end.

Inductive IssueCode :=
| InvalidType
| NotInteger
| TooSmall
| InvalidEnumValue.

(** An issue of a [ZodError]: the path of the value (empty for the whole
    input) and the kind of failure. *)
Record ZodIssue := { issue_path : list string; issue_code : IssueCode }.

(** The [code] zod gives an issue; a number that is not an integer fails
    [.int()] with code [invalid_type]. *)
Definition issue_code_name (c : IssueCode) : string :=
  match c with
  | InvalidType => "invalid_type"
  | NotInteger => "invalid_type"
  | TooSmall => "too_small"
  | InvalidEnumValue => "invalid_enum_value"
  end.

(** The [path] and [code] of an issue as sent in [details]; the further
    keys of zod's issue objects ([message] and the like) are left out. *)
Definition issue_json (i : ZodIssue) : Json :=
  JObj [("path", JArr (map JStr (issue_path i)));
        ("code", JStr (issue_code_name (issue_code i)))].

(** An error object: its class, the [message] and [stack] of every [Error],
    [statusCode] (read on an [HttpError] only) and [issues] (read on a
    [ZodError] only). *)
Record JsError := {
  err_class : ErrorClass;
  err_message : string;
  err_stack : string;
  err_statusCode : Z;
  err_issues : list ZodIssue
}.

(** [err instanceof C] *)
Definition instanceof (e : JsError) (c : ErrorClass) : bool :=
  chain_has 2 (err_class e) c.

(** [new HttpError(statusCode, message)] *)
Definition HttpError (statusCode : Z) (message : string) : JsError :=
  {| err_class := ClsHttpError; err_message := message;
     err_stack := "HttpError: " +:+ message;
     err_statusCode := statusCode; err_issues := [] |}.

Definition ZodError (issues : list ZodIssue) : JsError :=
  {| err_class := ClsZodError; err_message := "validation";
     err_stack := "ZodError"; err_statusCode := 0; err_issues := issues |}.

Definition JsonWebTokenError (message : string) : JsError :=
  {| err_class := ClsJsonWebTokenError; err_message := message;
     err_stack := "JsonWebTokenError: " +:+ message;
     err_statusCode := 0; err_issues := [] |}.

Definition TokenExpiredError (message : string) : JsError :=
  {| err_class := ClsTokenExpiredError; err_message := message;
     err_stack := "TokenExpiredError: " +:+ message;
     err_statusCode := 0; err_issues := [] |}.

Definition PlainError (message : string) : JsError :=
  {| err_class := ClsError; err_message := message;
     err_stack := "Error: " +:+ message;
     err_statusCode := 0; err_issues := [] |}.

(** [new RangeError(message)]: for the tests of [errorMiddleware], an
    error of none of the classes it names. *)
Definition RangeError (message : string) : JsError :=
  {| err_class := ClsError; err_message := message;
     err_stack := "RangeError: " +:+ message;
     err_statusCode := 0; err_issues := [] |}.

(** ** Configuration ([config/env]) *)

Inductive NodeEnv := Development | Production | Test.

Record Env := {
  NODE_ENV : NodeEnv;
  JWT_SECRET : string;
  PASSWORD_HASH : string;
  JWT_EXPIRY : Z;
  DEFAULT_PAGE_LIMIT : Z;
  MAX_PAGE_LIMIT : Z
}.

(** What [envSchema] guarantees of the numeric settings:
    [z.coerce.number().int().positive()]. *)
Definition env_valid (env : Env) : Prop :=
  0 < JWT_EXPIRY env /\ 0 < DEFAULT_PAGE_LIMIT env /\ 0 < MAX_PAGE_LIMIT env.

Definition is_production (env : Env) : bool :=
  match NODE_ENV env with
  | Production => true
  | _ => false
  end.

(** ** The [items] table and the statements sent to it *)

Record DBItem := {
  id : Z;
  name : string;
  description : option string;
  created_at : Z;
  updated_at : Z
}.

Inductive Column := ColName | ColDescription.

(** The statements the repository passes to [pool.execute], with the values
    bound to their placeholders. The sort column and direction of the first
    one are spliced into the text and are kept as the strings they are. *)
Inductive Statement :=
| SelectPage (orderBy direction : string) (limit offset : Z)
| SelectCount
| SelectById (key : Z)
| InsertItem (new_name : string) (new_description : option string)
| UpdateItem (sets : list (Column * string)) (key : Z)
| DeleteItem (key : Z).

(** Statements that change the table. *)
Definition is_mutation (st : Statement) : bool :=
  match st with
  | InsertItem _ _ | UpdateItem _ _ | DeleteItem _ => true
  | _ => false
  end.

(** mysql2's [ResultSetHeader], the fields the code builds or returns. *)
Record ResultSetHeader := {
  affectedRows : Z;
  fieldCount : Z;
  info : string;
  insertId : Z;
  serverStatus : Z;
  warningStatus : Z;
  changedRows : Z
}.

Inductive QueryResult :=
| Rows (rows : list DBItem)
| CountRow (total : Z)
| Header (h : ResultSetHeader).

Record Store := {
  items : list DBItem;
  next_id : Z
}.

(** ** The data store

    A sequential model of the MySQL table behind [pool.execute]: what each
    statement returns and how it changes the rows. A statement the server
    would refuse (unknown sort column, bad direction keyword, negative
    LIMIT or OFFSET, an UPDATE without assignments) is a thrown error. *)

Inductive Outcome (A : Type) :=
| Return (a : A)
| Throw (e : JsError).
Arguments Return {A} a.
Arguments Throw {A} e.

Module Db.

Definition columns : list string :=
  ["id"; "name"; "description"; "created_at"; "updated_at"].

Definition known_column (col : string) : bool :=
  existsb (String.eqb col) columns.

(** NULL sorts before every string. *)
Definition nullable_leb (a b : option string) : bool :=
  match a, b with
  | None, _ => true
  | Some _, None => false
  | Some x, Some y => String.leb x y
  end.

(** [a <= b] in the order of a column of the table. *)
Definition column_leb (col : string) (a b : DBItem) : bool :=
  if String.eqb col "id" then id a <=? id b
  else if String.eqb col "name" then String.leb (name a) (name b)
  else if String.eqb col "description" then nullable_leb (description a) (description b)
  else if String.eqb col "created_at" then created_at a <=? created_at b
  else updated_at a <=? updated_at b.

Fixpoint insert_by (le : DBItem -> DBItem -> bool) (x : DBItem) (l : list DBItem) : list DBItem :=
  match l with
  | [] => [x]
  | y :: r => if le x y then x :: y :: r else y :: insert_by le x r
  end.

Definition sort_by (le : DBItem -> DBItem -> bool) (l : list DBItem) : list DBItem :=
  foldr (insert_by le) [] l.

(** [ORDER BY col dir]; [None] when the server rejects the clause. Rows
    that tie on the column are kept in the order of the table, which is
    one of the orders MySQL may return them in. *)
Definition order_by (col dir : string) (l : list DBItem) : option (list DBItem) :=
  if negb (known_column col) then None
  else if String.eqb dir "ASC" then Some (sort_by (column_leb col) l)
  else if String.eqb dir "DESC" then Some (sort_by (fun a b => column_leb col b a) l)
  else None.

Definition has_id (k : Z) (r : DBItem) : bool := id r =? k.

Definition assign (r : DBItem) (set : Column * string) : DBItem :=
  match set with
  | (ColName, v) =>
      {| id := id r; name := v; description := description r;
         created_at := created_at r; updated_at := updated_at r |}
  | (ColDescription, v) =>
      {| id := id r; name := name r; description := Some v;
         created_at := created_at r; updated_at := updated_at r |}
  end.

Definition same_data (a b : DBItem) : bool :=
  (String.eqb (name a) (name b) &&
   match description a, description b with
   | None, None => true
   | Some x, Some y => String.eqb x y
   | _, _ => false
   end)%bool.

(** One row under [UPDATE ... WHERE id = key]: the assignments are applied
    to a matching row, and [updated_at] moves when the row changed. *)
Definition update_row (now : Z) (sets : list (Column * string)) (key : Z) (r : DBItem) : DBItem :=
  if has_id key r then
    let r' := foldl assign r sets in
    if same_data r r' then r
    else {| id := id r'; name := name r'; description := description r';
            created_at := created_at r'; updated_at := now |}
  else r.

Definition count_if (p : DBItem -> bool) (l : list DBItem) : Z :=
  Z.of_nat (List.length (List.filter p l)).

Definition header (affected changed insert : Z) : ResultSetHeader :=
  {| affectedRows := affected; fieldCount := 0; info := ""; insertId := insert;
     serverStatus := 2; warningStatus := 0; changedRows := changed |}.

Definition sql_error (message : string) : JsError := PlainError message.

Definition run (now : Z) (st : Statement) (s : Store) : Outcome QueryResult * Store :=
  match st with
  | SelectPage col dir limit offset =>
      match order_by col dir (items s) with
      | None => (Throw (sql_error "ER_BAD_ORDER_BY"), s)
      | Some sorted =>
          if (limit <? 0) || (offset <? 0) then (Throw (sql_error "ER_PARSE_ERROR"), s)
          else (Return (Rows (take (Z.to_nat limit) (drop (Z.to_nat offset) sorted))), s)
      end
  | SelectCount => (Return (CountRow (Z.of_nat (List.length (items s)))), s)
  | SelectById key => (Return (Rows (List.filter (has_id key) (items s))), s)
  | InsertItem n d =>
      let r := {| id := next_id s; name := n; description := d;
                  created_at := now; updated_at := now |} in
      (Return (Header (header 1 0 (next_id s))),
       {| items := items s ++ [r]; next_id := next_id s + 1 |})
  | UpdateItem sets key =>
      match sets with
      | [] => (Throw (sql_error "ER_PARSE_ERROR"), s)
      | _ =>
          let rows' := map (update_row now sets key) (items s) in
          let changed :=
            count_if (fun r => has_id key r && negb (same_data r (foldl assign r sets))) (items s) in
          (Return (Header (header (count_if (has_id key) (items s)) changed 0)),
           {| items := rows'; next_id := next_id s |})
      end
  | DeleteItem key =>
      (Return (Header (header (count_if (has_id key) (items s)) 0 0)),
       {| items := List.filter (fun r => negb (has_id key r)) (items s); next_id := next_id s |})
  end.

End Db.

(** ** Effects of a request, in the order they happen *)

Record CookieOptions := {
  httpOnly : bool;
  secure : bool;
  sameSite : string;
  maxAge : Z
}.

(** The decoded token payload read by [authMiddleware]. *)
Record AuthPayload := {
  authenticated : bool;
  timestamp : Z
}.

Inductive Effect :=
| SqlExecute (st : Statement)
| BcryptCompare (password hash : string)
| JwtSign (payload : AuthPayload) (secret : string) (expiresIn : Z)
| JwtVerify (token secret : string)
| LoggerError (message : string) (context : list (string * Json))
| ResStatus (code : Z)
| ResCookie (cookie_name cookie_value : string) (options : CookieOptions)
| ResJson (body : Json)
| ResEnd.

(** The library functions the code calls and the repository does not
    define: JavaScript's [Number], bcryptjs's [compare], jsonwebtoken's
    [sign] and [verify] (which read the clock). *)
Class Runtime := {
  Number : string -> Js.number;
  bcrypt_compare : string -> string -> bool;
  jwt_sign : AuthPayload -> string -> Z -> Z -> string;
  jwt_verify : string -> string -> Z -> Outcome AuthPayload
}.

Record World := {
  store : Store;
  now : Z;
  trace : list Effect
}.

(** Computations: read and change the world, then return or throw. *)
Definition M (A : Type) : Type := World -> Outcome A * World.

Definition ret {A} (a : A) : M A := fun w => (Return a, w).

Definition throw {A} (e : JsError) : M A := fun w => (Throw e, w).

Definition bind {A B} (m : M A) (k : A -> M B) : M B :=
  fun w =>
    match m w with
    | (Return a, w') => k a w'
    | (Throw e, w') => (Throw e, w')
    end.

(** [try { m } catch (error) { h(error) }] *)
Definition try_catch {A} (m : M A) (h : JsError -> M A) : M A :=
  fun w =>
    match m w with
    | (Return a, w') => (Return a, w')
    | (Throw e, w') => h e w'
    end.

Notation "'await' x <- m ; k" := (bind m (fun x => k))
  (at level 10, x name, m at level 100, k at level 200).
Notation "'exec' m ; k" := (bind m (fun _ => k))
  (at level 10, m at level 100, k at level 200).

Definition emit (e : Effect) : M unit :=
  fun w => (Return tt, {| store := store w; now := now w; trace := trace w ++ [e] |}).

Definition date_now : M Z := fun w => (Return (now w), w).

(** [pool.execute(sql, params)] *)
Definition pool_execute (st : Statement) : M QueryResult :=
  exec emit (SqlExecute st);
  fun w =>
    let '(r, s') := Db.run (now w) st (store w) in
    (r, {| store := s'; now := now w; trace := trace w |}).

(** ** The response object

    What the client receives after the effects of a trace: the status set
    last (200 when none was set), the cookies, the JSON body. *)

Record Response := {
  res_status : Z;
  res_cookies : list (string * string * CookieOptions);
  res_body : option Json;
  res_sent : bool
}.

Definition fresh_response : Response :=
  {| res_status := 200; res_cookies := []; res_body := None; res_sent := false |}.

Definition apply_effect (r : Response) (e : Effect) : Response :=
  match e with
  | ResStatus c =>
      {| res_status := c; res_cookies := res_cookies r; res_body := res_body r; res_sent := res_sent r |}
  | ResCookie n v o =>
      {| res_status := res_status r; res_cookies := res_cookies r ++ [(n, v, o)];
         res_body := res_body r; res_sent := res_sent r |}
  | ResJson b =>
      {| res_status := res_status r; res_cookies := res_cookies r; res_body := Some b; res_sent := true |}
  | ResEnd =>
      {| res_status := res_status r; res_cookies := res_cookies r; res_body := res_body r; res_sent := true |}
  | _ => r
  end.

Definition response_of (t : list Effect) : Response := foldl apply_effect fresh_response t.

(** The statements of a trace, in order. *)
Definition statements_of (t : list Effect) : list Statement :=
  omap (fun e => match e with SqlExecute st => Some st | _ => None end) t.

(** ** [utils/apiResponse] *)

Definition successResponse (data : list (string * Json)) : Json :=
  JObj (("success", JBool true) :: data).

Definition errorResponse (message : string) (details : option Json) : Json :=
  JObj ([("success", JBool false); ("error", JStr message)]
        ++ match details with
           | Some d => if json_truthy d then [("details", d)] else []
           | None => []
           end).

(** [res.status(code)] for an integer [code]: Express sets the status when
    it lies between 100 and 999 and throws a [RangeError] otherwise. *)
Definition set_status (code : Z) : M unit :=
  if (code <? 100) || (999 <? code) then
    throw (RangeError ("Invalid status code: " +:+ pretty code
                       +:+ ". Status code must be greater than 99 and less than 1000."))
  else emit (ResStatus code).

(** ** [middleware/errorMiddleware] *)

Section ErrorMiddleware.

Variable env : Env.

Definition errorMiddleware (err : JsError) : M unit :=
  if instanceof err ClsHttpError then
    exec set_status (err_statusCode err);
    emit (ResJson (errorResponse (err_message err) None))
  else if instanceof err ClsZodError then
    exec set_status 400;
    emit (ResJson (errorResponse "Données invalides" (Some (JArr (map issue_json (err_issues err))))))
  else if instanceof err ClsJsonWebTokenError then
    exec set_status 401;
    emit (ResJson (errorResponse "Token invalide" None))
  else if instanceof err ClsTokenExpiredError then
    exec set_status 401;
    emit (ResJson (errorResponse "Token expiré" None))
  else
    exec emit (LoggerError "Erreur non gérée"
            [("message", JStr (err_message err)); ("stack", JStr (err_stack err))]);
    let message := if is_production env then "Erreur serveur" else err_message err in
    exec set_status 500;
    emit (ResJson (errorResponse message None)).

End ErrorMiddleware.

(** ** [repositories/itemRepository] *)

Record UpdateItemPatch := {
  patch_name : option string;
  patch_description : option string
}.

Module itemRepo.

Definition ALLOWED_SORT_FIELDS : list string := ["id"; "name"; "created_at"; "updated_at"].

Definition ALLOWED_SORT_DIRECTIONS : list string := ["ASC"; "DESC"].

Definition rows_of (r : QueryResult) : list DBItem :=
  match r with
  | Rows rows => rows
  | _ => []
  end.

Definition header_of (r : QueryResult) : ResultSetHeader :=
  match r with
  | Header h => h
  | _ => Db.header 0 0 0
  end.

Definition safeSortBy (sortBy : string) : string :=
  if Js.includes ALLOWED_SORT_FIELDS sortBy then sortBy else "created_at".

Definition safeSortDir (sortDirection : string) : string :=
  if Js.includes ALLOWED_SORT_DIRECTIONS (Js.toUpperCase sortDirection)
  then Js.toUpperCase sortDirection else "DESC".

(** [findAll(limit, offset, sortBy = 'created_at', sortDirection = 'DESC')] *)
Definition findAll (limit offset : Z) (sortBy sortDirection : option string) : M (list DBItem) :=
  let sortBy := Js.nullish sortBy "created_at" in
  let sortDirection := Js.nullish sortDirection "DESC" in
  await r <- pool_execute (SelectPage (safeSortBy sortBy) (safeSortDir sortDirection) limit offset);
  ret (rows_of r).

Definition countAll : M Z :=
  await r <- pool_execute SelectCount;
  ret (match r with CountRow total => total | _ => 0 end).

(** [rows[0] ?? null] *)
Definition findById (key : Z) : M (option DBItem) :=
  await r <- pool_execute (SelectById key);
  ret (head (rows_of r)).

Definition create (input_name : string) (input_description : option string) : M Z :=
  await r <- pool_execute (InsertItem input_name input_description);
  ret (insertId (header_of r)).

(** The [fields]/[values] pairs pushed for the fields of the patch that
    are not [undefined]. *)
Definition update_sets (patch : UpdateItemPatch) : list (Column * string) :=
  match patch_name patch with
  | Some n => [(ColName, n)]
  | None => []
  end ++
  match patch_description patch with
  | Some d => [(ColDescription, d)]
  | None => []
  end.

Definition update (key : Z) (patch : UpdateItemPatch) : M ResultSetHeader :=
  let fields := update_sets patch in
  if (List.length fields =? 0)%nat then
    ret {| affectedRows := 0; fieldCount := 0; info := ""; insertId := 0;
           serverStatus := 0; warningStatus := 0; changedRows := 0 |}
  else
    await r <- pool_execute (UpdateItem fields key);
    ret (header_of r).

Definition remove (key : Z) : M ResultSetHeader :=
  await r <- pool_execute (DeleteItem key);
  ret (header_of r).

End itemRepo.

(** ** [services/itemService] *)

Record Pagination := {
  total : Z;
  page : Z;
  limit : Z;
  totalPages : Js.ceiling
}.

Record ListResult := {
  data : list DBItem;
  pagination : Pagination
}.

(** [Promise.all([m1, m2])]: both computations are started, in order; the
    result is rejected with the first rejection. *)
Definition promise_all2 {A B} (m1 : M A) (m2 : M B) : M (A * B) :=
  fun w =>
    let '(r1, w1) := m1 w in
    let '(r2, w2) := m2 w1 in
    match r1, r2 with
    | Return a, Return b => (Return (a, b), w2)
    | Throw e, _ => (Throw e, w2)
    | _, Throw e => (Throw e, w2)
    end.

(** [Math.ceil(a / b)] on numbers that hold integers. A division by zero
    gives [Infinity], [-Infinity] or (for [0 / 0]) [NaN]. The quotient is
    taken exactly: for a count below [2 ^ 53] and a positive divisor,
    rounding the quotient to a double does not move it across an
    integer. *)
Definition Math_ceil_div (a b : Z) : Js.ceiling :=
  if b =? 0 then
    if a =? 0 then Js.NotANumber else Js.Infinite (0 <? a)
  else Js.Ceil (Qceiling (inject_Z a / inject_Z b)).

Module itemService.
Section WithEnv.

Variable env : Env.

Definition pageLimit_of (limit : option Z) : Z :=
  Z.min (Js.nullish limit (DEFAULT_PAGE_LIMIT env)) (MAX_PAGE_LIMIT env).

Definition direction_of (sortDirection : option string) : string :=
  match sortDirection with
  | Some d => if String.eqb (Js.toUpperCase d) "ASC" then "ASC" else "DESC"
  | None => "DESC"
  end.

(** [listItems(page = 1, limit?, sortBy?, sortDirection?)] *)
Definition listItems (page limit : option Z) (sortBy sortDirection : option string) : M ListResult :=
  let page := Js.nullish page 1 in
  let pageLimit := pageLimit_of limit in
  let offset := Js.mul (Js.sub page 1) pageLimit in
  let direction := direction_of sortDirection in
  await r <- promise_all2 (itemRepo.findAll pageLimit offset sortBy (Some direction))
                          itemRepo.countAll;
  let '(items, total) := r in
  ret {| data := items;
         pagination := {| total := total; page := page; limit := pageLimit;
                          totalPages := Math_ceil_div total pageLimit |} |}.

Definition getItem (key : Z) : M DBItem :=
  await item <- itemRepo.findById key;
  match item with
  | None => throw (HttpError 404 "Item introuvable")
  | Some i => ret i
  end.

Definition createItem (input_name : string) (input_description : option string) : M Z :=
  itemRepo.create input_name input_description.

Definition updateItem (key : Z) (patch : UpdateItemPatch) : M ResultSetHeader :=
  exec getItem key;
  itemRepo.update key patch.

Definition deleteItem (key : Z) : M ResultSetHeader :=
  exec getItem key;
  itemRepo.remove key.

End WithEnv.
End itemService.

(** ** Requests *)

Record Request := {
  authorization : option string;
  cookies : option (gmap string string);
  query : gmap string string;
  user : option AuthPayload
}.

(** How a middleware hands over: [next()], [next(error)], or it answered
    and returned. *)
Inductive Flow :=
| Next (request : Request)
| NextError (error : JsError)
| Responded.

(** ** [schemas/itemSchema], [middleware/validateMiddleware] *)

Record ListItemsQuery := {
  q_limit : option Z;
  q_page : option Z;
  q_sortBy : option string;
  q_sortDirection : option string
}.

Section Validation.

Context `{RT : Runtime}.

Definition issue (path : string) (code : IssueCode) : ZodIssue :=
  {| issue_path := [path]; issue_code := code |}.

(** An issue on the input as a whole. *)
Definition root_issue (code : IssueCode) : ZodIssue :=
  {| issue_path := []; issue_code := code |}.

(** [z.coerce.number().int().positive().optional()] *)
Definition positive_int_optional (path : string) (raw : option string) : list ZodIssue * option Z :=
  match raw with
  | None => ([], None)
  | Some s =>
      match Number s with
      | Js.NaN => ([issue path InvalidType], None)
      | Js.Int z => if 0 <? z then ([], Some z) else ([issue path TooSmall], None)
      | Js.NonInt pos => (issue path NotInteger :: if pos then [] else [issue path TooSmall], None)
      end
  end.

(** [z.enum(values).optional()] *)
Definition enum_optional (values : list string) (path : string) (raw : option string)
  : list ZodIssue * option string :=
  match raw with
  | None => ([], None)
  | Some s => if Js.includes values s then ([], Some s) else ([issue path InvalidEnumValue], None)
  end.

Definition ItemSortFieldEnum : list string := ["id"; "name"; "created_at"; "updated_at"].

Definition SortDirectionEnum : list string := ["asc"; "desc"].

(** [ListItemsQuerySchema.parse(query)] *)
Definition ListItemsQuerySchema_parse (q : gmap string string) : Outcome ListItemsQuery :=
  let '(i1, l) := positive_int_optional "limit" (q !! "limit") in
  let '(i2, p) := positive_int_optional "page" (q !! "page") in
  let '(i3, sb) := enum_optional ItemSortFieldEnum "sortBy" (q !! "sortBy") in
  let '(i4, sd) := enum_optional SortDirectionEnum "sortDirection" (q !! "sortDirection") in
  match (i1 ++ i2 ++ i3 ++ i4)%list with
  | [] => Return {| q_limit := l; q_page := p; q_sortBy := sb; q_sortDirection := sd |}
  | issues => Throw (ZodError issues)
  end.

(** [validateQuery(ListItemsQuerySchema)]: the parsed values are what the
    handler reads from [req.query] afterwards. *)
Definition validateQuery_ListItems (req : Request) : M ListItemsQuery :=
  fun w => (ListItemsQuerySchema_parse (query req), w).

End Validation.

(** ** [middleware/authMiddleware] *)

Section Auth.

Context `{RT : Runtime}.
Variable env : Env.

Definition jwt_verify_call (token secret : string) : M AuthPayload :=
  exec emit (JwtVerify token secret);
  fun w => (jwt_verify token secret (now w), w).

Definition jwt_sign_call (payload : AuthPayload) (secret : string) (expiresIn : Z) : M string :=
  exec emit (JwtSign payload secret expiresIn);
  fun w => (Return (jwt_sign payload secret expiresIn (now w)), w).

Definition bcrypt_compare_call (password hash : string) : M bool :=
  exec emit (BcryptCompare password hash);
  ret (bcrypt_compare password hash).

(** [authHeader?.startsWith('Bearer ') ? authHeader.slice(7) : undefined] *)
Definition bearer_of (authHeader : option string) : option string :=
  match authHeader with
  | Some h => if Js.startsWith "Bearer " h then Some (Js.slice 7 h) else None
  | None => None
  end.

(** [request.cookies?.authToken] *)
Definition cookie_token (request : Request) : option string :=
  match cookies request with
  | Some jar => jar !! "authToken"
  | None => None
  end.

Definition extract_token (request : Request) : option string :=
  Js.or (bearer_of (authorization request)) (cookie_token request).

Definition authMiddleware (request : Request) : M Flow :=
  let token := extract_token request in
  if negb (Js.truthy token) then
    exec set_status 401;
    exec emit (ResJson (errorResponse "Token d'authentification manquant" None));
    ret Responded
  else
    try_catch
      (await decoded <- jwt_verify_call (Js.nullish token "") (JWT_SECRET env);
       ret (Next {| authorization := authorization request; cookies := cookies request;
                    query := query request;
                    user := Some {| authenticated := authenticated decoded;
                                    timestamp := timestamp decoded |} |}))
      (fun error => ret (NextError error)).

(** ** [controllers/authController] *)

Definition loginHandler (password : string) : M unit :=
  await isValid <- bcrypt_compare_call password (PASSWORD_HASH env);
  if negb isValid then
    exec set_status 401;
    emit (ResJson (errorResponse "Mot de passe incorrect" None))
  else
    await t <- date_now;
    await token <- jwt_sign_call {| authenticated := true; timestamp := t |}
                                 (JWT_SECRET env) (JWT_EXPIRY env);
    exec emit (ResCookie "authToken" token
                 {| httpOnly := true; secure := is_production env;
                    sameSite := "strict"; maxAge := JWT_EXPIRY env * 1000 |});
    emit (ResJson (successResponse [("token", JStr token)])).

End Auth.

(** ** [controllers/itemController] *)

Definition item_json (i : DBItem) : Json :=
  JObj [("id", JNum (id i)); ("name", JStr (name i));
        ("description", match description i with Some d => JStr d | None => JNull end);
        ("created_at", JNum (created_at i)); ("updated_at", JNum (updated_at i))].

Definition pagination_json (p : Pagination) : Json :=
  JObj [("total", JNum (total p)); ("page", JNum (page p));
        ("limit", JNum (limit p));
        ("totalPages", match totalPages p with
                       | Js.Ceil n => JNum n
                       | _ => JNull
                       end)].

(** [v ? Number(v) : undefined] on a validated query value. *)
Definition number_if_truthy (v : option Z) : option Z :=
  match v with
  | Some z => if z =? 0 then None else Some z
  | None => None
  end.

Section Controllers.

Context `{RT : Runtime}.
Variable env : Env.

Definition listItemsHandler (q : ListItemsQuery) : M unit :=
  await result <- itemService.listItems env
                    (number_if_truthy (q_page q)) (number_if_truthy (q_limit q))
                    (q_sortBy q) (q_sortDirection q);
  emit (ResJson (successResponse [("data", JArr (map item_json (data result)));
                                  ("pagination", pagination_json (pagination result))])).

Definition getItemHandler (key : Z) : M unit :=
  await item <- itemService.getItem key;
  emit (ResJson (successResponse [("data", item_json item)])).

Definition createItemHandler (input_name : string) (input_description : option string) : M unit :=
  await new_id <- itemService.createItem input_name input_description;
  exec set_status 201;
  emit (ResJson (successResponse [("id", JNum new_id)])).

Definition updateItemHandler (key : Z) (patch : UpdateItemPatch) : M unit :=
  exec itemService.updateItem key patch;
  emit (ResJson (successResponse [])).

Definition deleteItemHandler (key : Z) : M unit :=
  exec itemService.deleteItem key;
  exec set_status 204;
  emit ResEnd.

(** ** Routing ([routes/apiRoutes], [routes/itemRoutes], [server])

    A route runs its middlewares in order; an error thrown or passed to
    [next] goes to [errorMiddleware], which is registered last. *)

Definition protected (request : Request) (route : Request -> M unit) : M unit :=
  await flow <- authMiddleware env request;
  match flow with
  | Responded => ret tt
  | NextError error => errorMiddleware env error
  | Next request' => try_catch (route request') (errorMiddleware env)
  end.

(** [GET /api/items] *)
Definition GET_items (request : Request) : M unit :=
  protected request (fun req =>
    await q <- validateQuery_ListItems req;
    listItemsHandler q).

(** [PATCH /api/items/:id], past the validation of the id and the body *)
Definition PATCH_item (request : Request) (key : Z) (patch : UpdateItemPatch) : M unit :=
  protected request (fun _ => updateItemHandler key patch).

(** [DELETE /api/items/:id], past the validation of the id *)
Definition DELETE_item (request : Request) (key : Z) : M unit :=
  protected request (fun _ => deleteItemHandler key).

(** [POST /api/auth/login], past the validation of the body *)
Definition POST_login (password : string) : M unit :=
  try_catch (loginHandler env password) (errorMiddleware env).

End Controllers.

(** ** A small runtime and store for examples

    Stand-ins for the library functions, enough to run the code above on
    concrete requests: decimal strings are numbers, the stored hash of a
    password is the password behind a tag, and three tokens are known. *)

Module Sample.

Fixpoint digits_value (acc : Z) (s : string) : option Z :=
  match s with
  | EmptyString => Some acc
  | String c r =>
      let n := nat_of_ascii c in
      if (Nat.leb 48 n && Nat.leb n 57)%bool
      then digits_value (10 * acc + Z.of_nat (n - 48)) r
      else None
  end.

Definition number_of_string (s : string) : Js.number :=
  match digits_value 0 s with
  | Some z => Js.Int z
  | None => Js.NaN
  end.

Definition verify (token secret : string) (now : Z) : Outcome AuthPayload :=
  if String.eqb token "good-token" then Return {| authenticated := true; timestamp := 1000 |}
  else if String.eqb token "old-token" then Throw (TokenExpiredError "jwt expired")
  else Throw (JsonWebTokenError "invalid signature").

Definition runtime : Runtime := {|
  Number := number_of_string;
  bcrypt_compare := fun password hash => String.eqb ("bcrypt:" +:+ password) hash;
  jwt_sign := fun _ _ _ _ => "good-token";
  jwt_verify := verify
|}.

Definition env : Env :=
  {| NODE_ENV := Production; JWT_SECRET := "secret"; PASSWORD_HASH := "bcrypt:admin";
     JWT_EXPIRY := 86400; DEFAULT_PAGE_LIMIT := 10; MAX_PAGE_LIMIT := 100 |}.

Definition row1 : DBItem :=
  {| id := 1; name := "pear"; description := None; created_at := 10; updated_at := 10 |}.
Definition row2 : DBItem :=
  {| id := 2; name := "apple"; description := Some "green"; created_at := 20; updated_at := 25 |}.
Definition row3 : DBItem :=
  {| id := 3; name := "fig"; description := None; created_at := 30; updated_at := 30 |}.

Definition world : World :=
  {| store := {| items := [row1; row2; row3]; next_id := 4 |}; now := 5000; trace := [] |}.

Definition request (auth : option string) (jar : option (gmap string string))
           (q : gmap string string) : Request :=
  {| authorization := auth; cookies := jar; query := q; user := None |}.

(** [GET /api/items?sortBy=1=1; DROP] and [GET /api/items], both with a
    token that verifies. *)
Definition list_sorted_by_injection : Request :=
  request (Some "Bearer good-token") None {[ "sortBy" := "1=1; DROP" ]}.

Definition list_plain : Request :=
  request (Some "Bearer good-token") None ∅.

End Sample.

(** ** Vocabulary of the statements below *)

(** An error that none of the [instanceof] tests of [errorMiddleware]
    recognises. *)
Definition unclassified (e : JsError) : bool :=
  negb (instanceof e ClsHttpError) && negb (instanceof e ClsZodError)
  && negb (instanceof e ClsJsonWebTokenError) && negb (instanceof e ClsTokenExpiredError).

(** The effects a computation adds to the trace of the world it starts in. *)
Definition adds {A} (m : M A) (w : World) (effects : list Effect) : Prop :=
  trace (m w).2 = (trace w ++ effects)%list.

(** The header carries a bearer token: the scheme prefix followed by a
    non-empty token. *)
Definition bearer_header (h : option string) (t : string) : Prop :=
  t <> "" /\ h = Some ("Bearer " +:+ t).

(** What a page request may carry: a positive page number and a positive
    limit, when given. *)
Definition valid_page_inputs (page limit : option Z) : Prop :=
  (forall p, page = Some p -> 0 < p) /\ (forall l, limit = Some l -> 0 < l).

(** The page number, the configured maximum and the number of rows of the
    table are safe integers: the numbers the code computes with are then
    exact, up to the product of the offset. *)
Definition safe_listing (env : Env) (page : option Z) (s : Store) : Prop :=
  Js.nullish page 1 <= Js.MAX_SAFE_INTEGER
  /\ MAX_PAGE_LIMIT env <= Js.MAX_SAFE_INTEGER
  /\ Z.of_nat (List.length (items s)) <= Js.MAX_SAFE_INTEGER.

(** The table holds a row with this identifier. *)
Definition row_exists (key : Z) (s : Store) : Prop :=
  exists r, In r (items s) /\ id r = key.

(** The world after a computation that only added effects. *)
Definition after (w : World) (effects : list Effect) : World :=
  {| store := store w; now := now w; trace := trace w ++ effects |}.

Definition no_mutation (effects : list Effect) : bool :=
  forallb (fun st => negb (is_mutation st)) (statements_of effects).

Definition NotFound : JsError := HttpError 404 "Item introuvable".

Definition empty_patch : UpdateItemPatch :=
  {| patch_name := None; patch_description := None |}.

Definition is_JwtVerify (e : Effect) : bool :=
  match e with
  | JwtVerify _ _ => true
  | _ => false
  end.

(** ** Bodies and route parameters
    ([schemas/itemSchema], [schemas/commonSchema], [schemas/authSchema],
    [middleware/validateMiddleware]) *)

(** The value of a key of a parsed JSON object (its keys are distinct). *)
Definition json_field (key : string) (fields : list (string * Json)) : option Json :=
  match List.find (fun kv => String.eqb (fst kv) key) fields with
  | Some kv => Some (snd kv)
  | None => None
  end.

Definition issues_of {A} (r : list ZodIssue + A) : list ZodIssue :=
  match r with
  | inl issues => issues
  | inr _ => []
  end.

(** [z.string().min(1)] *)
Definition string_min1 (path : string) (v : option Json) : list ZodIssue + string :=
  match v with
  | Some (JStr s) =>
      if (String.length s <? 1)%nat then inl [issue path TooSmall] else inr s
  | _ => inl [issue path InvalidType]
  end.

(** [z.string().min(1).optional()] *)
Definition string_min1_optional (path : string) (v : option Json) : list ZodIssue + option string :=
  match v with
  | None => inr None
  | Some (JStr s) =>
      if (String.length s <? 1)%nat then inl [issue path TooSmall] else inr (Some s)
  | Some _ => inl [issue path InvalidType]
  end.

(** [z.string().optional()] *)
Definition string_optional (path : string) (v : option Json) : list ZodIssue + option string :=
  match v with
  | None => inr None
  | Some (JStr s) => inr (Some s)
  | Some _ => inl [issue path InvalidType]
  end.

Record CreateItem := {
  create_name : string;
  create_description : option string
}.

(** [CreateItemSchema.parse(body)]; [None] is a request without a body. *)
Definition CreateItemSchema_parse (body : option Json) : Outcome CreateItem :=
  match body with
  | Some (JObj fields) =>
      match string_min1 "name" (json_field "name" fields),
            string_optional "description" (json_field "description" fields) with
      | inr n, inr d => Return {| create_name := n; create_description := d |}
      | rn, rd => Throw (ZodError (issues_of rn ++ issues_of rd))
      end
  | _ => Throw (ZodError [root_issue InvalidType])
  end.

(** [UpdateItemSchema.parse(body)] *)
Definition UpdateItemSchema_parse (body : option Json) : Outcome UpdateItemPatch :=
  match body with
  | Some (JObj fields) =>
      match string_min1_optional "name" (json_field "name" fields),
            string_optional "description" (json_field "description" fields) with
      | inr n, inr d => Return {| patch_name := n; patch_description := d |}
      | rn, rd => Throw (ZodError (issues_of rn ++ issues_of rd))
      end
  | _ => Throw (ZodError [root_issue InvalidType])
  end.

(** [LoginSchema.parse(body)] *)
Definition LoginSchema_parse (body : option Json) : Outcome string :=
  match body with
  | Some (JObj fields) =>
      match string_min1 "password" (json_field "password" fields) with
      | inr p => Return p
      | inl issues => Throw (ZodError issues)
      end
  | _ => Throw (ZodError [root_issue InvalidType])
  end.

Section MoreValidation.

Context `{RT : Runtime}.

(** [z.coerce.number().int().positive()] on a value that is there. *)
Definition positive_int (path : string) (s : string) : list ZodIssue + Z :=
  match Number s with
  | Js.NaN => inl [issue path InvalidType]
  | Js.Int z => if 0 <? z then inr z else inl [issue path TooSmall]
  | Js.NonInt pos => inl (issue path NotInteger :: if pos then [] else [issue path TooSmall])
  end.

(** [IdParamSchema.parse(req.params)] for the route parameter [:id]. *)
Definition IdParamSchema_parse (raw_id : string) : Outcome Z :=
  match positive_int "id" raw_id with
  | inr z => Return z
  | inl issues => Throw (ZodError issues)
  end.

(** [validateParams(IdParamSchema)]: the handler reads the parsed [id]. *)
Definition validateParams_Id (raw_id : string) : M Z :=
  fun w => (IdParamSchema_parse raw_id, w).

(** [validateBody(schema)]: [req.body] becomes the parsed value. *)
Definition validateBody {A} (parse : option Json -> Outcome A) (body : option Json) : M A :=
  fun w => (parse body, w).

End MoreValidation.

(** ** The routes of [routes/itemRoutes] and [routes/authRoutes], whole *)

Section Routes.

Context `{RT : Runtime}.
Variable env : Env.

(** [GET /api/items/:id] *)
Definition route_getItem (request : Request) (raw_id : string) : M unit :=
  protected env request (fun _ =>
    await key <- validateParams_Id raw_id;
    getItemHandler key).

(** [POST /api/items] *)
Definition route_createItem (request : Request) (body : option Json) : M unit :=
  protected env request (fun _ =>
    await input <- validateBody CreateItemSchema_parse body;
    createItemHandler (create_name input) (create_description input)).

(** [PATCH /api/items/:id] *)
Definition route_updateItem (request : Request) (raw_id : string) (body : option Json) : M unit :=
  protected env request (fun _ =>
    await key <- validateParams_Id raw_id;
    await patch <- validateBody UpdateItemSchema_parse body;
    updateItemHandler key patch).

(** [DELETE /api/items/:id] *)
Definition route_deleteItem (request : Request) (raw_id : string) : M unit :=
  protected env request (fun _ =>
    await key <- validateParams_Id raw_id;
    deleteItemHandler key).

(** [POST /api/auth/login] *)
Definition route_login (body : option Json) : M unit :=
  try_catch
    (await password <- validateBody LoginSchema_parse body;
     loginHandler env password)
    (errorMiddleware env).

End Routes.

(** ** [config/env]: the schema of the environment *)

Record FullEnv := {
  core : Env;
  PORT : Z;
  DB_HOST : string;
  DB_PORT : Z;
  DB_USER : string;
  DB_PASSWORD : string;
  DB_NAME : string;
  DB_POOL_SIZE : Z;
  CORS_ORIGIN : option string
}.

Section EnvSchema.

Context `{RT : Runtime}.

(** [z.coerce.number().int().positive().default(d)] *)
Definition positive_int_default (path : string) (d : Z) (raw : option string) : list ZodIssue + Z :=
  match raw with
  | None => inr d
  | Some s => positive_int path s
  end.

(** [z.string().min(1, message)] on a variable of the environment. *)
Definition env_string_min1 (path : string) (raw : option string) : list ZodIssue + string :=
  match raw with
  | None => inl [issue path InvalidType]
  | Some s => if (String.length s <? 1)%nat then inl [issue path TooSmall] else inr s
  end.

(** [z.enum(['development', 'production', 'test']).default('development')] *)
Definition node_env_default (raw : option string) : list ZodIssue + NodeEnv :=
  match raw with
  | None => inr Development
  | Some s =>
      if String.eqb s "development" then inr Development
      else if String.eqb s "production" then inr Production
      else if String.eqb s "test" then inr Test
      else inl [issue "NODE_ENV" InvalidEnumValue]
  end.

(** [envSchema.safeParse(process.env)]: the configuration, or the issues
    that stop the process. *)
Definition envSchema_safeParse (penv : gmap string string) : list ZodIssue + FullEnv :=
  match node_env_default (penv !! "NODE_ENV"),
        positive_int_default "PORT" 3000 (penv !! "PORT"),
        env_string_min1 "DB_HOST" (penv !! "DB_HOST"),
        positive_int_default "DB_PORT" 3306 (penv !! "DB_PORT"),
        env_string_min1 "DB_USER" (penv !! "DB_USER"),
        env_string_min1 "DB_PASSWORD" (penv !! "DB_PASSWORD"),
        env_string_min1 "DB_NAME" (penv !! "DB_NAME"),
        positive_int_default "DB_POOL_SIZE" 10 (penv !! "DB_POOL_SIZE"),
        env_string_min1 "JWT_SECRET" (penv !! "JWT_SECRET"),
        env_string_min1 "PASSWORD_HASH" (penv !! "PASSWORD_HASH"),
        positive_int_default "JWT_EXPIRY" 86400 (penv !! "JWT_EXPIRY"),
        positive_int_default "DEFAULT_PAGE_LIMIT" 10 (penv !! "DEFAULT_PAGE_LIMIT"),
        positive_int_default "MAX_PAGE_LIMIT" 100 (penv !! "MAX_PAGE_LIMIT") with
  | inr node, inr port, inr host, inr dbport, inr user, inr password, inr dbname, inr pool,
    inr secret, inr hash, inr expiry, inr deflimit, inr maxlimit =>
      inr {| core := {| NODE_ENV := node; JWT_SECRET := secret; PASSWORD_HASH := hash;
                        JWT_EXPIRY := expiry; DEFAULT_PAGE_LIMIT := deflimit;
                        MAX_PAGE_LIMIT := maxlimit |};
             PORT := port; DB_HOST := host; DB_PORT := dbport; DB_USER := user;
             DB_PASSWORD := password; DB_NAME := dbname; DB_POOL_SIZE := pool;
             CORS_ORIGIN := penv !! "CORS_ORIGIN" |}
  | r1, r2, r3, r4, r5, r6, r7, r8, r9, r10, r11, r12, r13 =>
      inl (issues_of r1 ++ issues_of r2 ++ issues_of r3 ++ issues_of r4 ++ issues_of r5
           ++ issues_of r6 ++ issues_of r7 ++ issues_of r8 ++ issues_of r9 ++ issues_of r10
           ++ issues_of r11 ++ issues_of r12 ++ issues_of r13)%list
  end.

End EnvSchema.

(** ** More vocabulary *)

(** Identifiers are those of an AUTO_INCREMENT key: distinct, and below the
    next one to be given. *)
Definition store_ok (s : Store) : Prop :=
  NoDup (map id (items s)) /\ Forall (fun r => id r < next_id s) (items s).

(** The rows a lookup by identifier finds. *)
Definition rows_with (key : Z) (s : Store) : list DBItem :=
  List.filter (Db.has_id key) (items s).

Definition is_LoggerError (e : Effect) : bool :=
  match e with
  | LoggerError _ _ => true
  | _ => false
  end.

Definition is_BcryptCompare (e : Effect) : bool :=
  match e with
  | BcryptCompare _ _ => true
  | _ => false
  end.

(** A query value that [z.coerce.number().int().positive().optional()]
    accepts. *)
Definition count_ok `{RT : Runtime} (raw : option string) : Prop :=
  forall s, raw = Some s -> exists z, Number s = Js.Int z /\ 0 < z.

(** A query value that [z.enum(values).optional()] accepts. *)
Definition enum_ok (values : list string) (raw : option string) : Prop :=
  forall s, raw = Some s -> In s values.

(** The request carries a token that [jwt.verify] accepts in this world. *)
Definition authenticated_as `{RT : Runtime} (env : Env) (request : Request) (w : World)
           (t : string) (payload : AuthPayload) : Prop :=
  extract_token request = Some t /\ t <> ""
  /\ jwt_verify t (JWT_SECRET env) (now w) = Return payload.

(** The cookies a client sends back after a response that set them. *)
Definition jar_of (set : list (string * string * CookieOptions)) : gmap string string :=
  list_to_map (map (fun c => (c.1.1, c.1.2)) set).

(** The request as [authMiddleware] hands it on: the decoded payload is
    attached as [request.user]. *)
Definition with_user (request : Request) (payload : AuthPayload) : Request :=
  {| authorization := authorization request; cookies := cookies request;
     query := query request;
     user := Some {| authenticated := authenticated payload; timestamp := timestamp payload |} |}.

(** The rows of the table in the order in which [listItems] pages through
    them for a sort field and direction. *)
Definition ordered_rows (sortBy sortDirection : option string) (s : Store) : list DBItem :=
  default [] (Db.order_by (itemRepo.safeSortBy (Js.nullish sortBy "created_at"))
                          (itemRepo.safeSortDir (itemService.direction_of sortDirection))
                          (items s)).

(** The integer that a query value stands for once coerced. *)
Definition int_of `{RT : Runtime} (s : string) : option Z :=
  match Number s with
  | Js.Int z => Some z
  | _ => None
  end.

(** The four parameters of a list query are acceptable to the schema. *)
Definition list_query_ok `{RT : Runtime} (q : gmap string string) : Prop :=
  count_ok (q !! "limit") /\ count_ok (q !! "page")
  /\ enum_ok ["id"; "name"; "created_at"; "updated_at"] (q !! "sortBy")
  /\ enum_ok ["asc"; "desc"] (q !! "sortDirection").

(** The route parameter [:id] stands for a positive integer. *)
Definition id_ok `{RT : Runtime} (raw_id : string) (key : Z) : Prop :=
  Number raw_id = Js.Int key /\ 0 < key.

(** A JSON object with a non-empty string [name] and, if any, a string
    [description]. *)
Definition create_body_ok (body : option Json) (n : string) (d : option string) : Prop :=
  exists fields,
    body = Some (JObj fields)
    /\ json_field "name" fields = Some (JStr n) /\ n <> ""
    /\ json_field "description" fields = option_map JStr d.

(** A JSON object whose [name], if any, is a non-empty string and whose
    [description], if any, is a string. *)
Definition update_body_ok (body : option Json) (patch : UpdateItemPatch) : Prop :=
  exists fields,
    body = Some (JObj fields)
    /\ json_field "name" fields = option_map JStr (patch_name patch)
    /\ patch_name patch <> Some ""
    /\ json_field "description" fields = option_map JStr (patch_description patch).

(** A JSON object with a non-empty string [password]. *)
Definition login_body_ok (body : option Json) (password : string) : Prop :=
  exists fields,
    body = Some (JObj fields)
    /\ json_field "password" fields = Some (JStr password) /\ password <> "".

(** The 400 answer of [errorMiddleware] to a [ZodError]. *)
Definition validation_answer (issues : list ZodIssue) : list Effect :=
  [ResStatus 400;
   ResJson (errorResponse "Données invalides" (Some (JArr (map issue_json issues))))].

(** * Properties *)

(** Brings a trace built by successive [emit]s to the form
    [trace w ++ [e1; ...; en]]. *)
Ltac flatten_trace :=
  repeat rewrite <- List.app_assoc; simpl.

(** ** Strings *)

Lemma substring_whole (s : string) : String.substring 0 (String.length s) s = s.
Proof.
  induction s as [|c r IH]; simpl.
  - reflexivity.
  - now rewrite IH.
Qed.

Lemma slice_Bearer (t : string) : Js.slice 7 ("Bearer " +:+ t) = t.
Proof.
  unfold Js.slice. cbv beta iota delta [String.append]. simpl.
  replace (String.length t - 0)%nat with (String.length t) by lia.
  apply substring_whole.
Qed.

Lemma startsWith_Bearer (t : string) : Js.startsWith "Bearer " ("Bearer " +:+ t) = true.
Proof.
  unfold Js.startsWith. cbv beta iota delta [String.append]. simpl. now destruct t.
Qed.

(** A string that starts with a prefix is the prefix followed by the
    slice after it. *)
Lemma startsWith_split (p h : string) :
  Js.startsWith p h = true -> h = p +:+ Js.slice (String.length p) h.
Proof.
  unfold Js.startsWith, Js.slice. revert h.
  induction p as [|c p IH]; intros h Hp; simpl.
  - replace (String.length h - 0)%nat with (String.length h) by lia.
    now rewrite substring_whole.
  - destruct h as [|d h]; simpl in Hp; [discriminate|].
    destruct (Ascii.ascii_dec c d) as [->|]; [|discriminate].
    simpl. change (String d p +:+ ?x) with (String d (p +:+ x)).
    f_equal. now apply IH.
Qed.

Lemma truthy_Some (s : string) : s <> "" -> Js.truthy (Some s) = true.
Proof.
  intros Hs. unfold Js.truthy. destruct (String.eqb_spec s ""); [contradiction|reflexivity].
Qed.

(** ** The class hierarchy seen by [instanceof] *)

Lemma expired_is_a_JsonWebTokenError (e : JsError) :
  instanceof e ClsTokenExpiredError = true -> instanceof e ClsJsonWebTokenError = true.
Proof.
  unfold instanceof. now destruct (err_class e).
Qed.

(** The fourth test of [errorMiddleware] is never the one that answers. *)
Lemma expired_branch_unreachable (env : Env) (e : JsError) (w : World) :
  instanceof e ClsHttpError = false ->
  trace (errorMiddleware env e w).2 <>
    (trace w ++ [ResStatus 401; ResJson (errorResponse "Token expiré" None)])%list.
Proof.
  intros Hh. unfold errorMiddleware, instanceof in *.
  destruct (err_class e); simpl in *; try discriminate;
    flatten_trace; intros Heq; apply app_inv_head in Heq; discriminate.
Qed.

(** ** Error taxonomy *)

Section ErrorTaxonomy.

Context `{RT : Runtime}.
Variable env : Env.

(** C1. A request whose token [jwt.verify] rejects as expired reaches
    [errorMiddleware] with a [TokenExpiredError]; the handler answers 401
    with the message of the invalid-token branch, "Token invalide", which
    differs from the message "Token expiré" of the branch written for
    expired tokens. *)
Theorem C1_expired_token_answered_as_invalid
        (request : Request) (w : World) (t : string) (e : JsError) :
  extract_token request = Some t ->
  t <> "" ->
  jwt_verify t (JWT_SECRET env) (now w) = Throw e ->
  err_class e = ClsTokenExpiredError ->
  adds (GET_items env request) w
       [JwtVerify t (JWT_SECRET env); ResStatus 401;
        ResJson (errorResponse "Token invalide" None)]
  /\ errorResponse "Token invalide" None <> errorResponse "Token expiré" None.
Proof.
  intros Htok Ht Hv Hc. split; [|discriminate].
  unfold adds, GET_items, protected, authMiddleware.
  rewrite Htok, (truthy_Some t Ht). simpl.
  unfold bind, try_catch, jwt_verify_call, bind, emit. simpl.
  rewrite Hv. simpl.
  unfold errorMiddleware, instanceof. rewrite Hc. simpl.
  now flatten_trace.
Qed.

(** C9. An error that no test of the handler recognises is logged with its
    message and stack, then answered with status 500 and the body
    [{ success: false, error: message }], where the message is the fixed
    "Erreur serveur" in production and the message of the error in every
    other mode. *)
Theorem C9_unclassified_logged_then_500 (e : JsError) (w : World) :
  unclassified e = true ->
  exists message,
    errorMiddleware env e w =
      (Return tt,
       {| store := store w; now := now w;
          trace := trace w ++
            [LoggerError "Erreur non gérée"
               [("message", JStr (err_message e)); ("stack", JStr (err_stack e))];
             ResStatus 500;
             ResJson (JObj [("success", JBool false); ("error", JStr message)])] |})
    /\ (NODE_ENV env = Production -> message = "Erreur serveur")
    /\ (NODE_ENV env <> Production -> message = err_message e).
Proof.
  intros Hu. exists (if is_production env then "Erreur serveur" else err_message e).
  split; [|split].
  - unfold unclassified, instanceof in Hu. unfold errorMiddleware, instanceof.
    destruct (err_class e); simpl in Hu; try discriminate.
    simpl. unfold bind, emit. simpl. flatten_trace. reflexivity.
  - intros Hp. unfold is_production. now rewrite Hp.
  - intros Hp. unfold is_production. now destruct (NODE_ENV env).
Qed.

End ErrorTaxonomy.

Lemma C1_expired_token_answered_as_invalid_witness :
  adds (GET_items (RT:=Sample.runtime) Sample.env (Sample.request (Some "Bearer old-token") None ∅)) Sample.world
       [JwtVerify "old-token" "secret"; ResStatus 401;
        ResJson (errorResponse "Token invalide" None)]
  /\ errorResponse "Token invalide" None <> errorResponse "Token expiré" None.
Proof.
  apply (C1_expired_token_answered_as_invalid (RT:=Sample.runtime) Sample.env
           (Sample.request (Some "Bearer old-token") None ∅) Sample.world
           "old-token" (TokenExpiredError "jwt expired")).
  - reflexivity.
  - discriminate.
  - reflexivity.
  - reflexivity.
Defined.

Lemma C9_unclassified_logged_then_500_witness :
  exists message,
    errorMiddleware Sample.env (PlainError "disk full") Sample.world =
      (Return tt,
       {| store := store Sample.world; now := 5000;
          trace := [LoggerError "Erreur non gérée"
                      [("message", JStr "disk full"); ("stack", JStr "Error: disk full")];
                    ResStatus 500;
                    ResJson (JObj [("success", JBool false); ("error", JStr message)])] |})
    /\ message = "Erreur serveur".
Proof.
  destruct (C9_unclassified_logged_then_500 Sample.env (PlainError "disk full") Sample.world)
    as (message & Hrun & Hprod & _).
  - reflexivity.
  - exists message. split; [exact Hrun|]. now apply Hprod.
Defined.

(** ** Token extraction and verification *)

Section TokenExtraction.

Context `{RT : Runtime}.
Variable env : Env.

Lemma bearer_of_header (h : option string) (t : string) :
  bearer_header h t -> bearer_of h = Some t.
Proof.
  intros [_ ->]. unfold bearer_of.
  now rewrite startsWith_Bearer, slice_Bearer.
Qed.

Lemma bearer_of_no_header (h : option string) :
  (forall t, ~ bearer_header h t) -> Js.truthy (bearer_of h) = false.
Proof.
  intros Hno. unfold bearer_of. destruct h as [h|]; [|reflexivity].
  destruct (Js.startsWith "Bearer " h) eqn:Hp; [|reflexivity].
  apply startsWith_split in Hp. simpl String.length in Hp.
  unfold Js.truthy. destruct (String.eqb_spec (Js.slice 7 h) "") as [|Hne]; [reflexivity|].
  exfalso. apply (Hno (Js.slice 7 h)). split; [assumption|]. now rewrite <- Hp.
Qed.

Lemma extract_token_header (request : Request) (t : string) :
  bearer_header (authorization request) t -> extract_token request = Some t.
Proof.
  intros Hb. unfold extract_token, Js.or.
  rewrite (bearer_of_header _ _ Hb). destruct Hb as [Ht _].
  now rewrite (truthy_Some t Ht).
Qed.

Lemma extract_token_cookie (request : Request) :
  (forall t, ~ bearer_header (authorization request) t) ->
  extract_token request = cookie_token request.
Proof.
  intros Hno. unfold extract_token, Js.or.
  now rewrite (bearer_of_no_header _ Hno).
Qed.

(** With a token in hand the middleware calls [jwt.verify] on it, once,
    and nothing else. *)
Lemma authMiddleware_verifies (request : Request) (w : World) (t : string) :
  extract_token request = Some t -> t <> "" ->
  adds (authMiddleware env request) w [JwtVerify t (JWT_SECRET env)].
Proof.
  intros He Ht. unfold adds, authMiddleware.
  rewrite He, (truthy_Some t Ht). simpl.
  unfold try_catch, bind, jwt_verify_call, bind, emit. simpl.
  now destruct (jwt_verify t (JWT_SECRET env) (now w)).
Qed.

(** C7. When the Authorization header carries a bearer token and the
    [authToken] cookie is present too, the token of the header is the one
    extracted and verified. When neither the header nor the cookie yields
    a token, the middleware answers 401 "Token d'authentification
    manquant" and [jwt.verify] is not called. *)
Theorem C7_header_wins_and_missing_token (request : Request) (w : World) :
  (forall t c,
      bearer_header (authorization request) t ->
      cookie_token request = Some c ->
      extract_token request = Some t
      /\ adds (authMiddleware env request) w [JwtVerify t (JWT_SECRET env)])
  /\ ((forall t, ~ bearer_header (authorization request) t) ->
      (forall c, cookie_token request = Some c -> c = "") ->
      authMiddleware env request w =
        (Return Responded,
         {| store := store w; now := now w;
            trace := trace w ++
              [ResStatus 401;
               ResJson (errorResponse "Token d'authentification manquant" None)] |})
      /\ forallb (fun e => negb (is_JwtVerify e)) (trace (authMiddleware env request w).2)
         = forallb (fun e => negb (is_JwtVerify e)) (trace w)).
Proof.
  split.
  - intros t c Hb _. pose proof (extract_token_header _ _ Hb) as He.
    split; [assumption|]. destruct Hb as [Ht _].
    now apply authMiddleware_verifies.
  - intros Hno Hc.
    assert (Js.truthy (extract_token request) = false) as Hf.
    { rewrite (extract_token_cookie _ Hno).
      destruct (cookie_token request) as [c|] eqn:Ec; [|reflexivity].
      now rewrite (Hc c eq_refl). }
    unfold authMiddleware. rewrite Hf. simpl.
    unfold bind, emit, ret. simpl. flatten_trace. split; [reflexivity|].
    rewrite forallb_app. simpl. now rewrite andb_true_r.
Qed.

(** C10. The header supplies the token exactly when it is the prefix
    "Bearer " followed by a non-empty token. In every other case (no
    header, another scheme, "Bearer " alone) the value of the [authToken]
    cookie is the candidate, and it is the one verified when it is not
    empty. *)
Theorem C10_cookie_used_unless_bearer_token (request : Request) (w : World) :
  (forall t, bearer_header (authorization request) t -> extract_token request = Some t)
  /\ ((forall t, ~ bearer_header (authorization request) t) ->
      extract_token request = cookie_token request
      /\ forall c, cookie_token request = Some c -> c <> "" ->
                   adds (authMiddleware env request) w [JwtVerify c (JWT_SECRET env)])
  /\ (authorization request = None -> extract_token request = cookie_token request)
  /\ (authorization request = Some "Bearer " -> extract_token request = cookie_token request)
  /\ (forall h, authorization request = Some h -> Js.startsWith "Bearer " h = false ->
                extract_token request = cookie_token request).
Proof.
  split; [|split; [|split; [|split]]].
  - intros t Hb. now apply extract_token_header.
  - intros Hno. pose proof (extract_token_cookie _ Hno) as He.
    split; [assumption|]. intros c Hc Hne.
    apply authMiddleware_verifies; [|assumption]. now rewrite He.
  - intros Hn. unfold extract_token. now rewrite Hn.
  - intros Hb. unfold extract_token. now rewrite Hb.
  - intros h Hh Hp. unfold extract_token, bearer_of. now rewrite Hh, Hp.
Qed.

End TokenExtraction.

Lemma C7_header_wins_and_missing_token_witness :
  (extract_token (Sample.request (Some "Bearer good-token") (Some {[ "authToken" := "old-token" ]}) ∅)
     = Some "good-token"
   /\ adds (authMiddleware (RT:=Sample.runtime) Sample.env
              (Sample.request (Some "Bearer good-token") (Some {[ "authToken" := "old-token" ]}) ∅))
           Sample.world [JwtVerify "good-token" "secret"])
  /\ (authMiddleware (RT:=Sample.runtime) Sample.env (Sample.request None None ∅) Sample.world).1
     = Return Responded.
Proof.
  split.
  - apply (proj1 (C7_header_wins_and_missing_token (RT:=Sample.runtime) Sample.env
                    (Sample.request (Some "Bearer good-token")
                                    (Some {[ "authToken" := "old-token" ]}) ∅)
                    Sample.world) "good-token" "old-token").
    + split; [discriminate|reflexivity].
    + reflexivity.
  - pose proof (proj2 (C7_header_wins_and_missing_token (RT:=Sample.runtime) Sample.env
                         (Sample.request None None ∅) Sample.world)) as Hm.
    destruct Hm as [Hm _].
    + intros t [_ Hb]. discriminate.
    + intros c Hc. discriminate.
    + now rewrite Hm.
Defined.

Lemma C10_cookie_used_unless_bearer_token_witness :
  extract_token (Sample.request (Some "Bearer ") (Some {[ "authToken" := "good-token" ]}) ∅)
  = Some "good-token"
  /\ extract_token (Sample.request (Some "Basic abc") (Some {[ "authToken" := "good-token" ]}) ∅)
     = Some "good-token".
Proof.
  split.
  - rewrite (proj1 (proj2 (proj2 (proj2
       (C10_cookie_used_unless_bearer_token (RT:=Sample.runtime) Sample.env
          (Sample.request (Some "Bearer ") (Some {[ "authToken" := "good-token" ]}) ∅)
          Sample.world)))) eq_refl).
    reflexivity.
  - rewrite (proj2 (proj2 (proj2 (proj2
       (C10_cookie_used_unless_bearer_token (RT:=Sample.runtime) Sample.env
          (Sample.request (Some "Basic abc") (Some {[ "authToken" := "good-token" ]}) ∅)
          Sample.world)))) "Basic abc" eq_refl eq_refl).
    reflexivity.
Defined.

(** ** Login *)

Lemma length_lt_1 (s : string) : (String.length s <? 1)%nat = false <-> s <> "".
Proof.
  destruct s as [|c r]; simpl.
  - split; [discriminate|]. intros Hx. now contradiction Hx.
  - split; [discriminate|reflexivity].
Qed.

Lemma string_min1_spec (path : string) (v : option Json) :
  match string_min1 path v with
  | inr s => v = Some (JStr s) /\ s <> ""
  | inl issues => issues <> [] /\ forall s, v = Some (JStr s) -> s = ""
  end.
Proof.
  unfold string_min1. destruct v as [[| | |s| |]|]; try (split; [discriminate|intros; discriminate]).
  destruct ((String.length s <? 1)%nat) eqn:Hl.
  - split; [discriminate|]. intros s' Hs'. injection Hs' as <-.
    destruct s; [reflexivity|discriminate].
  - split; [reflexivity|]. now apply length_lt_1.
Qed.

Lemma LoginSchema_parse_spec (body : option Json) :
  match LoginSchema_parse body with
  | Return password => login_body_ok body password
  | Throw e =>
      err_class e = ClsZodError /\ err_issues e <> []
      /\ forall password, ~ login_body_ok body password
  end.
Proof.
  unfold LoginSchema_parse, login_body_ok.
  destruct body as [[| | | | |fields]|];
    try (split; [reflexivity|split; [discriminate|intros p (f & Hf & _); discriminate]]).
  pose proof (string_min1_spec "password" (json_field "password" fields)) as Hp.
  destruct (string_min1 "password" (json_field "password" fields)) as [i1|p].
  - destruct Hp as [Hi Hp]. split; [reflexivity|]. split; [exact Hi|].
    intros p (f & Hf & Hpass & Hne). injection Hf as <-. now apply Hne, Hp.
  - destruct Hp as [Hp Hne]. exists fields. auto.
Qed.

Section Login.

Context `{RT : Runtime}.
Variable env : Env.

(** C8, as the code has it. [POST /api/auth/login] validates the body
    first. With a body that is a JSON object with a non-empty string
    [password]: a password that [bcrypt.compare] rejects is answered 401
    with [{ success: false, error: "Mot de passe incorrect" }] and no
    cookie; a password it accepts is answered 200 with one cookie,
    [authToken], HttpOnly, and the body [{ success: true, token }], the
    cookie and the body carrying the one token that [jwt.sign] returned.
    With any other body, an empty or missing password included, the answer
    is 400 "Données invalides" with no cookie, and [bcrypt.compare] is
    not called. *)
Theorem C8_login_route_cookie_and_body (body : option Json) (w : World) :
  (forall password,
      login_body_ok body password ->
      exists effects,
        route_login env body w = (Return tt, after w effects)
        /\ if bcrypt_compare password (PASSWORD_HASH env) then
             exists token options,
               token = jwt_sign {| authenticated := true; timestamp := now w |}
                                (JWT_SECRET env) (JWT_EXPIRY env) (now w)
               /\ response_of effects =
                    {| res_status := 200;
                       res_cookies := [("authToken", token, options)];
                       res_body := Some (JObj [("success", JBool true); ("token", JStr token)]);
                       res_sent := true |}
               /\ httpOnly options = true
           else
             response_of effects =
               {| res_status := 401;
                  res_cookies := [];
                  res_body := Some (JObj [("success", JBool false);
                                          ("error", JStr "Mot de passe incorrect")]);
                  res_sent := true |})
  /\ ((forall password, ~ login_body_ok body password) ->
      exists effects issues,
        route_login env body w = (Return tt, after w effects)
        /\ issues <> []
        /\ response_of effects =
             {| res_status := 400;
                res_cookies := [];
                res_body := Some (JObj [("success", JBool false);
                                        ("error", JStr "Données invalides");
                                        ("details", JArr (map issue_json issues))]);
                res_sent := true |}
        /\ existsb is_BcryptCompare effects = false).
Proof.
  pose proof (LoginSchema_parse_spec body) as Hspec.
  destruct (LoginSchema_parse body) as [p0|e] eqn:Hp.
  - split; [|intros Hno; exfalso; exact (Hno _ Hspec)].
    intros password (f & Hf & Hpw & _). destruct Hspec as (f' & Hf' & Hpw' & _).
    rewrite Hf in Hf'. injection Hf' as <-.
    assert (p0 = password) as -> by congruence.
    unfold route_login, try_catch, bind at 1, validateBody. rewrite Hp.
    unfold loginHandler, bcrypt_compare_call, jwt_sign_call, date_now, bind, emit, ret, after.
    simpl. destruct (bcrypt_compare password (PASSWORD_HASH env)); simpl; flatten_trace.
    + eexists. split; [reflexivity|]. eexists _, _.
      split; [reflexivity|]. split; reflexivity.
    + eexists. split; reflexivity.
  - destruct Hspec as (Hc & Hi & Hno). split; [intros p Hok; exfalso; exact (Hno p Hok)|].
    intros _.
    unfold route_login, try_catch, bind at 1, validateBody. rewrite Hp.
    unfold errorMiddleware, instanceof, after, bind, emit. rewrite Hc.
    cbn. flatten_trace.
    eexists _, (err_issues e). split; [reflexivity|]. split; [exact Hi|].
    split; reflexivity.
Qed.

End Login.

(** C8, as the claim reads, fails on a login request whose password is
    the empty string: the password does not match the hash, and the answer
    is 400, not 401. *)
Lemma C8_counterexample :
  bcrypt_compare (Runtime:=Sample.runtime) "" (PASSWORD_HASH Sample.env) = false
  /\ response_of (trace (route_login (RT:=Sample.runtime) Sample.env
                           (Some (JObj [("password", JStr "")])) Sample.world).2)
     = {| res_status := 400;
          res_cookies := [];
          res_body := Some (JObj [("success", JBool false);
                                  ("error", JStr "Données invalides");
                                  ("details",
                                   JArr [JObj [("path", JArr [JStr "password"]);
                                               ("code", JStr "too_small")]])]);
          res_sent := true |}
  /\ 400 <> 401.
Proof.
  split; [reflexivity|]. split; [reflexivity|lia].
Qed.

Lemma C8_login_route_cookie_and_body_witness :
  (exists effects,
      route_login (RT:=Sample.runtime) Sample.env
        (Some (JObj [("password", JStr "admin")])) Sample.world
      = (Return tt, after Sample.world effects)
      /\ response_of effects =
           {| res_status := 200;
              res_cookies :=
                [("authToken", "good-token",
                  {| httpOnly := true; secure := true; sameSite := "strict";
                     maxAge := 86400000 |})];
              res_body := Some (JObj [("success", JBool true); ("token", JStr "good-token")]);
              res_sent := true |})
  /\ (exists effects,
        route_login (RT:=Sample.runtime) Sample.env
          (Some (JObj [("password", JStr "guess")])) Sample.world
        = (Return tt, after Sample.world effects)
        /\ response_of effects =
             {| res_status := 401;
                res_cookies := [];
                res_body := Some (JObj [("success", JBool false);
                                        ("error", JStr "Mot de passe incorrect")]);
                res_sent := true |}).
Proof.
  split.
  - destruct (proj1 (C8_login_route_cookie_and_body (RT:=Sample.runtime) Sample.env
                       (Some (JObj [("password", JStr "admin")])) Sample.world) "admin")
      as (effects & Hrun & Hresp).
    + eexists. split; [reflexivity|]. split; [reflexivity|discriminate].
    + exists effects. split; [exact Hrun|].
      injection Hrun as <-. reflexivity.
  - destruct (proj1 (C8_login_route_cookie_and_body (RT:=Sample.runtime) Sample.env
                       (Some (JObj [("password", JStr "guess")])) Sample.world) "guess")
      as (effects & Hrun & Hresp).
    + eexists. split; [reflexivity|]. split; [reflexivity|discriminate].
    + exists effects. split; [exact Hrun|]. exact Hresp.
Defined.

(** ** The store: ordering, LIMIT and OFFSET *)

Lemma insert_by_length le x l : List.length (Db.insert_by le x l) = S (List.length l).
Proof.
  induction l as [|y r IH]; simpl.
  - reflexivity.
  - destruct (le x y); simpl; [reflexivity|]. now rewrite IH.
Qed.

Lemma sort_by_length le l : List.length (Db.sort_by le l) = List.length l.
Proof.
  unfold Db.sort_by. induction l as [|x r IH]; simpl.
  - reflexivity.
  - now rewrite insert_by_length, IH.
Qed.

Lemma includes_cases (xs : list string) (x : string) :
  Js.includes xs x = true -> In x xs.
Proof.
  unfold Js.includes. intros Hx. apply existsb_exists in Hx.
  destruct Hx as [y [Hin Heq]]. apply String.eqb_eq in Heq. now subst.
Qed.

Lemma safeSortBy_allowed (sortBy : string) :
  In (itemRepo.safeSortBy sortBy) itemRepo.ALLOWED_SORT_FIELDS.
Proof.
  unfold itemRepo.safeSortBy.
  destruct (Js.includes itemRepo.ALLOWED_SORT_FIELDS sortBy) eqn:Hi.
  - now apply includes_cases.
  - simpl. tauto.
Qed.

Lemma safeSortDir_allowed (sortDirection : string) :
  In (itemRepo.safeSortDir sortDirection) itemRepo.ALLOWED_SORT_DIRECTIONS.
Proof.
  unfold itemRepo.safeSortDir.
  destruct (Js.includes itemRepo.ALLOWED_SORT_DIRECTIONS (Js.toUpperCase sortDirection)) eqn:Hi.
  - now apply includes_cases.
  - simpl. tauto.
Qed.

(** The ORDER BY clause that [findAll] builds is always accepted, and the
    ordered rows are as many as the rows of the table. *)
Lemma order_by_safe (sortBy sortDirection : string) (l : list DBItem) :
  exists sorted,
    Db.order_by (itemRepo.safeSortBy sortBy) (itemRepo.safeSortDir sortDirection) l = Some sorted
    /\ List.length sorted = List.length l.
Proof.
  pose proof (safeSortBy_allowed sortBy) as Hf.
  pose proof (safeSortDir_allowed sortDirection) as Hd.
  simpl in Hf, Hd.
  destruct Hf as [<-|[<-|[<-|[<-|[]]]]]; destruct Hd as [<-|[<-|[]]];
    unfold Db.order_by; simpl; eexists; (split; [reflexivity|apply sort_by_length]).
Qed.

(** ** Page arithmetic *)

Lemma Math_ceil_div_pos (a b : Z) : 0 < b -> Math_ceil_div a b = Js.Ceil (- ((- a) / b)).
Proof.
  intros Hb. unfold Math_ceil_div, Qceiling, Qfloor.
  destruct (Z.eqb_spec b 0) as [Hz|_]; [lia|].
  destruct b as [|p|p]; try lia.
  simpl. now rewrite Z.mul_1_r, Pos.mul_1_l.
Qed.

(** [Math.ceil(a / b)] is the least integer [n] with [a <= n * b]. *)
Lemma Math_ceil_div_spec (a b : Z) :
  0 < b ->
  exists n, Math_ceil_div a b = Js.Ceil n /\ a <= n * b /\ (n - 1) * b < a.
Proof.
  intros Hb. rewrite (Math_ceil_div_pos a b Hb). eexists. split; [reflexivity|].
  pose proof (Z.div_mod (- a) b ltac:(lia)) as Hdm.
  pose proof (Z.mod_pos_bound (- a) b Hb) as Hm.
  nia.
Qed.

Lemma Math_ceil_div_zero (b : Z) : 0 < b -> Math_ceil_div 0 b = Js.Ceil 0.
Proof.
  intros Hb. rewrite (Math_ceil_div_pos 0 b Hb). simpl. now rewrite Z.div_0_l by lia.
Qed.

(** ** Numbers beyond 53 bits *)

Lemma round_double_safe (z : Z) : Z.abs z < 2 ^ 53 -> Js.round_double z = z.
Proof.
  intros Hz. unfold Js.round_double.
  destruct (Z.ltb_spec (Z.abs z) (2 ^ 53)); [reflexivity|lia].
Qed.

(** Rounding does not bring a number from [2 ^ 53] on below [2 ^ 53]. *)
Lemma round_double_big (z : Z) : 2 ^ 53 <= z -> 2 ^ 53 <= Js.round_double z.
Proof.
  intros Hz. unfold Js.round_double.
  assert (0 < z) as Hpos by lia.
  rewrite (Z.abs_eq z) by lia. rewrite (Z.sgn_pos z Hpos).
  destruct (Z.ltb_spec z (2 ^ 53)) as [Hlt|_]; [lia|].
  pose proof (Z.log2_spec z Hpos) as [Hlo _].
  assert (53 <= Z.log2 z) as Hl.
  { change 53 with (Z.log2 (2 ^ 53)). now apply Z.log2_le_mono. }
  set (e := Z.log2 z - 52) in *.
  assert (0 < e) as He by (unfold e; lia).
  assert (0 < 2 ^ e) as Hpe by (apply Z.pow_pos_nonneg; lia).
  assert (2 ^ Z.log2 z = 2 ^ 52 * 2 ^ e) as Hsplit.
  { rewrite <- Z.pow_add_r by lia. f_equal. unfold e. lia. }
  assert (2 ^ 52 <= z / 2 ^ e) as Hq.
  { apply Z.div_le_lower_bound; [assumption|]. lia. }
  assert (2 ^ 53 <= 2 ^ Z.log2 z) as Hbig.
  { apply Z.pow_le_mono_r; lia. }
  set (q := z / 2 ^ e) in *.
  assert (forall q', q <= q' -> 2 ^ 53 <= 1 * (q' * 2 ^ e)) as Hres.
  { intros q' Hq'. nia. }
  destruct (z mod 2 ^ e <? 2 ^ (e - 1)); [apply Hres; lia|].
  destruct (2 ^ (e - 1) <? z mod 2 ^ e); [apply Hres; lia|].
  destruct (Z.even q); apply Hres; lia.
Qed.

Lemma round_double_nonneg (z : Z) : 0 <= z -> 0 <= Js.round_double z.
Proof.
  intros Hz. destruct (Z.lt_ge_cases z (2 ^ 53)) as [Hlt|Hge].
  - rewrite round_double_safe; [assumption|]. rewrite Z.abs_eq; lia.
  - pose proof (round_double_big z Hge). lia.
Qed.

(** The offset [listItems] computes for a positive page and limit. *)
Lemma offset_nonneg (p L : Z) : 0 < p -> 0 < L -> 0 <= Js.mul (Js.sub p 1) L.
Proof.
  intros Hp HL. unfold Js.mul, Js.sub.
  pose proof (round_double_nonneg (p - 1) ltac:(lia)).
  apply round_double_nonneg. nia.
Qed.

(** It is the product itself while that stays below [2 ^ 53]. *)
Lemma offset_exact (p L : Z) :
  0 < p -> 0 < L -> (p - 1) * L < 2 ^ 53 -> Js.mul (Js.sub p 1) L = (p - 1) * L.
Proof.
  intros Hp HL Hs. unfold Js.mul, Js.sub.
  destruct (Z.eq_dec p 1) as [->|Hne].
  - simpl. reflexivity.
  - assert (p - 1 < 2 ^ 53) by nia.
    rewrite (round_double_safe (p - 1)) by (rewrite Z.abs_eq; lia).
    apply round_double_safe. rewrite Z.abs_eq; nia.
Qed.

(** It is never below the smaller of the product and [2 ^ 53]. *)
Lemma offset_lower (p L bound : Z) :
  0 < p -> 0 < L -> bound <= (p - 1) * L -> bound <= 2 ^ 53 ->
  bound <= Js.mul (Js.sub p 1) L.
Proof.
  intros Hp HL Hb Hs.
  destruct (Z.lt_ge_cases ((p - 1) * L) (2 ^ 53)) as [Hlt|Hge].
  - rewrite offset_exact; assumption.
  - unfold Js.mul, Js.sub.
    assert (2 ^ 53 <= Js.round_double (p - 1) * L) as Hprod.
    { destruct (Z.lt_ge_cases (p - 1) (2 ^ 53)) as [Hp1|Hp1].
      - rewrite round_double_safe by (rewrite Z.abs_eq; lia). assumption.
      - pose proof (round_double_big (p - 1) Hp1). nia. }
    pose proof (round_double_big _ Hprod). lia.
Qed.

(** ** Listing *)

Section Listing.

Variable env : Env.

Lemma pageLimit_positive (limit : option Z) :
  env_valid env -> (forall l, limit = Some l -> 0 < l) ->
  0 < itemService.pageLimit_of env limit.
Proof.
  intros (_ & Hd & Hm) Hl. unfold itemService.pageLimit_of.
  destruct limit as [l|]; simpl.
  - specialize (Hl l eq_refl). lia.
  - lia.
Qed.

(** The run of [listItems] on a sequential store: two statements, the
    page and the count; the rows of the page window; the envelope. *)
Lemma listItems_run (page limit : option Z) (sortBy sortDirection : option string) (w : World) :
  let p := Js.nullish page 1 in
  let L := itemService.pageLimit_of env limit in
  let off := Js.mul (Js.sub p 1) L in
  let col := itemRepo.safeSortBy (Js.nullish sortBy "created_at") in
  let dir := itemRepo.safeSortDir (itemService.direction_of sortDirection) in
  0 <= L -> 0 <= off ->
  exists sorted,
    Db.order_by col dir (items (store w)) = Some sorted
    /\ List.length sorted = List.length (items (store w))
    /\ itemService.listItems env page limit sortBy sortDirection w =
         (Return {| data := take (Z.to_nat L) (drop (Z.to_nat off) sorted);
                    pagination :=
                      {| total := Z.of_nat (List.length (items (store w)));
                         page := p; limit := L;
                         totalPages :=
                           Math_ceil_div (Z.of_nat (List.length (items (store w)))) L |} |},
          {| store := store w; now := now w;
             trace := trace w ++
               [SqlExecute (SelectPage col dir L off); SqlExecute SelectCount] |}).
Proof.
  intros p L off col dir HL Ho.
  destruct (order_by_safe (Js.nullish sortBy "created_at")
              (itemService.direction_of sortDirection) (items (store w)))
    as [sorted [Hs Hlen]].
  exists sorted. split; [exact Hs|]. split; [exact Hlen|].
  unfold itemService.listItems, promise_all2, itemRepo.findAll, itemRepo.countAll,
    pool_execute, bind, emit, ret.
  cbn -[itemRepo.safeSortBy itemRepo.safeSortDir Db.order_by Js.mul Js.sub Z.ltb
        Math_ceil_div take drop Z.to_nat Z.of_nat List.length].
  fold p L. fold off. fold col dir.
  change (Db.order_by col dir (items (store w)) = Some sorted) in Hs. rewrite Hs.
  replace ((L <? 0) || (off <? 0)) with false by lia.
  cbn -[Js.mul Js.sub Math_ceil_div take drop Z.to_nat Z.of_nat List.length].
  flatten_trace. destruct (store w); reflexivity.
Qed.

(** The same for a positive page and limit under a valid configuration. *)
Lemma listItems_run_valid (page limit : option Z) (sortBy sortDirection : option string)
      (w : World) :
  env_valid env -> valid_page_inputs page limit ->
  let p := Js.nullish page 1 in
  let L := itemService.pageLimit_of env limit in
  let off := Js.mul (Js.sub p 1) L in
  0 < p /\ 0 < L /\ 0 <= off
  /\ exists sorted,
       List.length sorted = List.length (items (store w))
       /\ itemService.listItems env page limit sortBy sortDirection w =
            (Return {| data := take (Z.to_nat L) (drop (Z.to_nat off) sorted);
                       pagination :=
                         {| total := Z.of_nat (List.length (items (store w)));
                            page := p; limit := L;
                            totalPages :=
                              Math_ceil_div (Z.of_nat (List.length (items (store w)))) L |} |},
             {| store := store w; now := now w;
                trace := trace w ++
                  [SqlExecute (SelectPage
                                 (itemRepo.safeSortBy (Js.nullish sortBy "created_at"))
                                 (itemRepo.safeSortDir (itemService.direction_of sortDirection))
                                 L off);
                   SqlExecute SelectCount] |}).
Proof.
  intros Henv [Hp Hl] p L off.
  pose proof (pageLimit_positive limit Henv Hl) as HL. fold L in HL.
  assert (0 < p) as Hpage.
  { unfold p. destruct page as [x|]; simpl; [now apply Hp|lia]. }
  pose proof (offset_nonneg p L Hpage HL) as Hoff. fold off in Hoff.
  split; [exact Hpage|]. split; [exact HL|]. split; [exact Hoff|].
  destruct (listItems_run page limit sortBy sortDirection w ltac:(fold L; lia) Hoff)
    as [sorted (_ & Hlen & Hrun)].
  exists sorted. split; [exact Hlen|exact Hrun].
Qed.

End Listing.

Section Pagination.

Variable env : Env.

(** C3. For a positive page and limit, with page number, configured
    maximum and row count safe integers: the envelope echoes the page asked
    for, its limit is the limit in force, its total the number of rows, and
    its [totalPages] is the ceiling of [total / limit], that is, the least
    number of pages of [limit] rows that hold [total] rows, 0 for an empty
    table. A request for a page past [totalPages] succeeds with no rows.
    [total], [limit] and [totalPages] are the same whatever page is asked,
    and any other page past [totalPages] is empty as well. *)
Theorem C3_totalPages_and_pages_beyond
        (reqPage reqLimit : option Z) (sortBy sortDirection : option string) (w : World) :
  env_valid env ->
  valid_page_inputs reqPage reqLimit ->
  safe_listing env reqPage (store w) ->
  exists r n,
    (itemService.listItems env reqPage reqLimit sortBy sortDirection w).1 = Return r
    /\ page (pagination r) = Js.nullish reqPage 1
    /\ limit (pagination r)
       = Z.min (Js.nullish reqLimit (DEFAULT_PAGE_LIMIT env)) (MAX_PAGE_LIMIT env)
    /\ total (pagination r) = Z.of_nat (List.length (items (store w)))
    /\ totalPages (pagination r) = Js.Ceil n
    /\ 0 < limit (pagination r)
    /\ total (pagination r) <= n * limit (pagination r)
    /\ (n - 1) * limit (pagination r) < total (pagination r)
    /\ (total (pagination r) = 0 -> n = 0)
    /\ (n < Js.nullish reqPage 1 -> data r = [])
    /\ (forall otherPage r',
           (forall p, otherPage = Some p -> 0 < p <= Js.MAX_SAFE_INTEGER) ->
           (itemService.listItems env otherPage reqLimit sortBy sortDirection w).1 = Return r' ->
           page (pagination r') = Js.nullish otherPage 1
           /\ total (pagination r') = total (pagination r)
           /\ limit (pagination r') = limit (pagination r)
           /\ totalPages (pagination r') = totalPages (pagination r)
           /\ (n < Js.nullish otherPage 1 -> data r' = [])).
Proof.
  intros Henv Hv (_ & _ & Hrows).
  destruct (listItems_run_valid env reqPage reqLimit sortBy sortDirection w Henv Hv)
    as (Hpage & HL & Hoff & sorted & Hlen & Hrun).
  set (L := itemService.pageLimit_of env reqLimit) in *.
  set (T := Z.of_nat (List.length (items (store w)))) in *.
  destruct (Math_ceil_div_spec T L HL) as (n & Hn & Hle & Hlt).
  assert (Hempty : forall p (sorted' : list DBItem),
             List.length sorted' = List.length (items (store w)) ->
             0 < p -> n < p ->
             take (Z.to_nat L) (drop (Z.to_nat (Js.mul (Js.sub p 1) L)) sorted') = []).
  { intros p sorted' Hlen' Hp Hbeyond.
    rewrite drop_ge; [apply take_nil|].
    rewrite Hlen'.
    assert (T <= Js.mul (Js.sub p 1) L) as Hlow.
    { apply offset_lower; try assumption; [nia|].
      unfold Js.MAX_SAFE_INTEGER in Hrows. fold T in Hrows. lia. }
    pose proof (offset_nonneg p L Hp HL). unfold T in Hlow. lia. }
  rewrite Hrun. eexists. exists n. split; [reflexivity|].
  cbn [data pagination total limit totalPages page].
  split; [reflexivity|]. split; [reflexivity|]. split; [reflexivity|].
  split; [exact Hn|]. split; [exact HL|]. split; [exact Hle|]. split; [exact Hlt|].
  split; [|split].
  - intros HT. rewrite HT in Hn. rewrite (Math_ceil_div_zero L HL) in Hn. congruence.
  - intros Hbeyond. now apply (Hempty _ sorted Hlen Hpage).
  - intros otherPage r' Hp' Hrun'.
    destruct (listItems_run_valid env otherPage reqLimit sortBy sortDirection w Henv)
      as (Hpage' & _ & _ & sorted' & Hlen' & Hrun2).
    { split; [intros p Hp; now apply Hp'|]. now destruct Hv. }
    rewrite Hrun2 in Hrun'. simpl in Hrun'. injection Hrun' as <-.
    cbn [data pagination total limit totalPages page].
    split; [reflexivity|]. split; [reflexivity|]. split; [reflexivity|].
    split; [reflexivity|]. intros Hbeyond. now apply (Hempty _ sorted' Hlen' Hpage').
Qed.


End Pagination.

Lemma C3_totalPages_and_pages_beyond_witness :
  exists r,
    (itemService.listItems Sample.env (Some 7) (Some 2) None None Sample.world).1 = Return r
    /\ page (pagination r) = 7
    /\ limit (pagination r) = 2
    /\ total (pagination r) = 3
    /\ totalPages (pagination r) = Js.Ceil 2
    /\ data r = [].
Proof.
  destruct (C3_totalPages_and_pages_beyond Sample.env (Some 7) (Some 2) None None Sample.world)
    as (r & n & Hr & Hp & Hl & Ht & Hn & _ & Hle & Hlt & _ & Hempty & _).
  - unfold env_valid. simpl. lia.
  - split; intros x Hx; injection Hx as <-; lia.
  - unfold safe_listing, Js.MAX_SAFE_INTEGER. simpl. lia.
  - simpl in Hp, Hl, Ht, Hempty. rewrite Hl, Ht in Hle, Hlt.
    assert (n = 2) as -> by lia.
    exists r. repeat split; try assumption. apply Hempty. lia.
Defined.



(** ** Lookup, update and deletion *)

Lemma filter_has_id_found (key : Z) (l : list DBItem) :
  (exists r, In r l /\ id r = key) ->
  exists item, head (List.filter (Db.has_id key) l) = Some item /\ id item = key /\ In item l.
Proof.
  induction l as [|x l IH]; intros [r [Hin Hid]].
  - destruct Hin.
  - simpl. unfold Db.has_id at 1. destruct (Z.eqb_spec (id x) key) as [Hx|Hx].
    + exists x. simpl. auto.
    + destruct Hin as [->|Hin]; [contradiction|].
      destruct IH as [item (Hh & Hi & Hl)]; [now exists r|].
      exists item. auto.
Qed.

Lemma filter_has_id_missing (key : Z) (l : list DBItem) :
  ~ (exists r, In r l /\ id r = key) -> List.filter (Db.has_id key) l = [].
Proof.
  induction l as [|x l IH]; intros Hno; simpl.
  - reflexivity.
  - unfold Db.has_id at 1. destruct (Z.eqb_spec (id x) key) as [Hx|Hx].
    + exfalso. apply Hno. exists x. simpl. auto.
    + apply IH. intros [r [Hin Hid]]. apply Hno. exists r. simpl. auto.
Qed.

Lemma getItem_found (key : Z) (w : World) :
  row_exists key (store w) ->
  exists item,
    itemService.getItem key w = (Return item, after w [SqlExecute (SelectById key)])
    /\ id item = key /\ In item (items (store w)).
Proof.
  intros Hex. destruct (filter_has_id_found key _ Hex) as [item (Hh & Hi & Hl)].
  exists item. split; [|auto].
  unfold itemService.getItem, itemRepo.findById, pool_execute, bind, emit, ret, after.
  cbn -[List.filter]. rewrite Hh. cbn. now destruct (store w).
Qed.

Lemma getItem_missing (key : Z) (w : World) :
  ~ row_exists key (store w) ->
  itemService.getItem key w = (Throw NotFound, after w [SqlExecute (SelectById key)]).
Proof.
  intros Hno. pose proof (filter_has_id_missing key _ Hno) as Hf.
  unfold itemService.getItem, itemRepo.findById, pool_execute, bind, emit, ret, after.
  cbn -[List.filter]. rewrite Hf. cbn. now destruct (store w).
Qed.

(** After [DELETE FROM items WHERE id = key] no row has the identifier. *)
Lemma deleted_row_gone (key : Z) (l : list DBItem) :
  ~ (exists r, In r (List.filter (fun r => negb (Db.has_id key r)) l) /\ id r = key).
Proof.
  intros [r [Hin Hid]]. apply filter_In in Hin. destruct Hin as [_ Hn].
  unfold Db.has_id in Hn. rewrite Hid, Z.eqb_refl in Hn. discriminate.
Qed.

Lemma row_exists_dec (key : Z) (s : Store) : {row_exists key s} + {~ row_exists key s}.
Proof.
  destruct (List.filter (Db.has_id key) (items s)) as [|x l] eqn:Hf.
  - right. intros [r [Hin Hid]].
    assert (In r (List.filter (Db.has_id key) (items s))) as Hr.
    { apply filter_In. split; [assumption|]. unfold Db.has_id. now apply Z.eqb_eq. }
    rewrite Hf in Hr. destruct Hr.
  - left. exists x.
    assert (In x (List.filter (Db.has_id key) (items s))) as Hx by (rewrite Hf; now left).
    apply filter_In in Hx. destruct Hx as [Hin Hid]. split; [assumption|].
    unfold Db.has_id in Hid. now apply Z.eqb_eq.
Qed.

Lemma deleteItem_found (key : Z) (w : World) :
  row_exists key (store w) ->
  exists h,
    itemService.deleteItem key w =
      (Return h,
       {| store := {| items := List.filter (fun r => negb (Db.has_id key r)) (items (store w));
                      next_id := next_id (store w) |};
          now := now w;
          trace := trace w ++ [SqlExecute (SelectById key); SqlExecute (DeleteItem key)] |}).
Proof.
  intros Hex. destruct (getItem_found key w Hex) as [item (Hg & _)].
  unfold itemService.deleteItem, bind. rewrite Hg.
  unfold itemRepo.remove, pool_execute, bind, emit, ret, after.
  cbn -[List.filter]. flatten_trace. eexists. reflexivity.
Qed.

Lemma deleteItem_missing (key : Z) (w : World) :
  ~ row_exists key (store w) ->
  itemService.deleteItem key w = (Throw NotFound, after w [SqlExecute (SelectById key)]).
Proof.
  intros Hno. unfold itemService.deleteItem, bind. now rewrite (getItem_missing key w Hno).
Qed.

Section UpdateDelete.

Context `{RT : Runtime}.
Variable env : Env.

(** C5. Updating an existing row with a patch that has neither [name] nor
    [description] succeeds: the only statement sent is the lookup of the
    row, the result reports zero affected rows, the table is unchanged,
    and the handler answers 200. *)
Theorem C5_empty_patch_touches_nothing (key : Z) (w : World) :
  row_exists key (store w) ->
  exists h,
    itemService.updateItem key empty_patch w = (Return h, after w [SqlExecute (SelectById key)])
    /\ affectedRows h = 0
    /\ changedRows h = 0
    /\ no_mutation [SqlExecute (SelectById key)] = true
    /\ store (itemService.updateItem key empty_patch w).2 = store w
    /\ updateItemHandler key empty_patch w =
         (Return tt, after w [SqlExecute (SelectById key); ResJson (successResponse [])])
    /\ res_status (response_of [SqlExecute (SelectById key); ResJson (successResponse [])]) = 200.
Proof.
  intros Hex. destruct (getItem_found key w Hex) as [item (Hg & _)].
  assert (itemService.updateItem key empty_patch w =
            (Return {| affectedRows := 0; fieldCount := 0; info := ""; insertId := 0;
                       serverStatus := 0; warningStatus := 0; changedRows := 0 |},
             after w [SqlExecute (SelectById key)])) as Hu.
  { unfold itemService.updateItem, bind. rewrite Hg. reflexivity. }
  eexists. split; [exact Hu|]. repeat split.
  - now rewrite Hu.
  - unfold updateItemHandler, bind. rewrite Hu. unfold emit, after. cbn.
    now flatten_trace.
Qed.

(** C6. For an identifier with no row, update and delete both throw the
    404 error after the lookup alone: no UPDATE or DELETE statement is
    sent, the table is unchanged, and the client receives status 404.
    When the row exists the lookup precedes the DELETE. Deleting the same
    identifier a second time is NotFound, whatever the first call did. *)
Theorem C6_missing_id_is_NotFound (key : Z) (patch : UpdateItemPatch) (w : World) :
  ~ row_exists key (store w) ->
  itemService.updateItem key patch w = (Throw NotFound, after w [SqlExecute (SelectById key)])
  /\ itemService.deleteItem key w = (Throw NotFound, after w [SqlExecute (SelectById key)])
  /\ err_statusCode NotFound = 404
  /\ no_mutation [SqlExecute (SelectById key)] = true
  /\ store (after w [SqlExecute (SelectById key)]) = store w
  /\ try_catch (updateItemHandler key patch) (errorMiddleware env) w =
       (Return tt, after w [SqlExecute (SelectById key); ResStatus 404;
                            ResJson (errorResponse "Item introuvable" None)])
  /\ try_catch (deleteItemHandler key) (errorMiddleware env) w =
       (Return tt, after w [SqlExecute (SelectById key); ResStatus 404;
                            ResJson (errorResponse "Item introuvable" None)])
  /\ (forall w0, row_exists key (store w0) ->
        adds (itemService.deleteItem key) w0
             [SqlExecute (SelectById key); SqlExecute (DeleteItem key)])
  /\ (forall w0,
        let w1 := (itemService.deleteItem key w0).2 in
        itemService.deleteItem key w1 = (Throw NotFound, after w1 [SqlExecute (SelectById key)])).
Proof.
  intros Hno.
  assert (itemService.updateItem key patch w =
            (Throw NotFound, after w [SqlExecute (SelectById key)])) as Hu.
  { unfold itemService.updateItem, bind. now rewrite (getItem_missing key w Hno). }
  pose proof (deleteItem_missing key w Hno) as Hd.
  split; [exact Hu|]. split; [exact Hd|]. split; [reflexivity|]. split; [reflexivity|].
  split; [reflexivity|]. split; [|split; [|split]].
  - unfold try_catch, updateItemHandler, bind. rewrite Hu.
    unfold errorMiddleware, after, bind, emit. cbn. now flatten_trace.
  - unfold try_catch, deleteItemHandler, bind. rewrite Hd.
    unfold errorMiddleware, after, bind, emit. cbn. now flatten_trace.
  - intros w0 Hex. destruct (deleteItem_found key w0 Hex) as [h Hh].
    unfold adds. now rewrite Hh.
  - intros w0 w1. apply deleteItem_missing. unfold w1.
    destruct (row_exists_dec key (store w0)) as [Hex|Hmiss].
    + destruct (deleteItem_found key w0 Hex) as [h Hh]. rewrite Hh. cbn -[List.filter].
      apply deleted_row_gone.
    + rewrite (deleteItem_missing key w0 Hmiss). exact Hmiss.
Qed.

End UpdateDelete.

Lemma C5_empty_patch_touches_nothing_witness :
  exists h,
    itemService.updateItem 2 empty_patch Sample.world =
      (Return h, after Sample.world [SqlExecute (SelectById 2)])
    /\ affectedRows h = 0.
Proof.
  destruct (C5_empty_patch_touches_nothing 2 Sample.world) as [h (Hu & Ha & _)].
  - exists Sample.row2. simpl. split; [tauto|reflexivity].
  - exists h. split; [exact Hu|exact Ha].
Defined.

Lemma C6_missing_id_is_NotFound_witness :
  itemService.deleteItem 9 Sample.world =
    (Throw NotFound, after Sample.world [SqlExecute (SelectById 9)])
  /\ itemService.updateItem 9 {| patch_name := Some "plum"; patch_description := None |}
       Sample.world =
     (Throw NotFound, after Sample.world [SqlExecute (SelectById 9)]).
Proof.
  destruct (C6_missing_id_is_NotFound Sample.env 9
              {| patch_name := Some "plum"; patch_description := None |} Sample.world)
    as (Hu & Hd & _).
  - intros [r [Hin Hid]]. simpl in Hin.
    destruct Hin as [<-|[<-|[<-|[]]]]; discriminate.
  - split; [exact Hd|exact Hu].
Defined.

(** ** Sorting: the whitelist of the repository and the schema of the route *)

Section Sorting.

Context `{RT : Runtime}.
Variable env : Env.

Lemma authMiddleware_passes (request : Request) (w : World) (t : string) (payload : AuthPayload) :
  extract_token request = Some t -> t <> "" ->
  jwt_verify t (JWT_SECRET env) (now w) = Return payload ->
  exists request',
    authMiddleware env request w = (Return (Next request'), after w [JwtVerify t (JWT_SECRET env)])
    /\ query request' = query request.
Proof.
  intros He Ht Hv. unfold authMiddleware.
  rewrite He, (truthy_Some t Ht). cbn.
  unfold try_catch, bind, jwt_verify_call, bind, emit, ret, after. cbn.
  rewrite Hv. eexists. split; reflexivity.
Qed.

(** The schema refuses a [sortBy] outside its enumeration. *)
Lemma parse_rejects_sortBy (q : gmap string string) (sortBy : string) :
  q !! "sortBy" = Some sortBy ->
  Js.includes ItemSortFieldEnum sortBy = false ->
  exists issues,
    ListItemsQuerySchema_parse q = Throw (ZodError issues)
    /\ In (issue "sortBy" InvalidEnumValue) issues.
Proof.
  intros Hq Hi. unfold ListItemsQuerySchema_parse.
  destruct (positive_int_optional "limit" (q !! "limit")) as [i1 l].
  destruct (positive_int_optional "page" (q !! "page")) as [i2 p].
  rewrite Hq. unfold enum_optional at 1. rewrite Hi.
  destruct (enum_optional SortDirectionEnum "sortDirection" (q !! "sortDirection")) as [i4 sd].
  destruct i1 as [|a i1]; [destruct i2 as [|b i2]|]; cbn [app];
    eexists; (split; [reflexivity|]);
    cbn [In]; rewrite ?in_app_iff; cbn [In]; auto 6.
Qed.

(** What the schema lets through. *)
Lemma parse_accepts (q : gmap string string) (parsed : ListItemsQuery) :
  ListItemsQuerySchema_parse q = Return parsed ->
  valid_page_inputs (q_page parsed) (q_limit parsed)
  /\ (q !! "sortBy" = None -> q_sortBy parsed = None)
  /\ (forall s, q_sortBy parsed = Some s -> Js.includes ItemSortFieldEnum s = true).
Proof.
  unfold ListItemsQuerySchema_parse, positive_int_optional, enum_optional, valid_page_inputs.
  intros Hp.
  destruct (q !! "limit") as [sl|]; [destruct (Number sl) as [|zl|[|]]; [| destruct (Z.ltb_spec 0 zl) | |]|];
    (destruct (q !! "page") as [sp|]; [destruct (Number sp) as [|zp|[|]]; [| destruct (Z.ltb_spec 0 zp) | |]|]);
    (destruct (q !! "sortBy") as [sb|]; [destruct (Js.includes ItemSortFieldEnum sb) eqn:Hsb|]);
    (destruct (q !! "sortDirection") as [sd|]; [destruct (Js.includes SortDirectionEnum sd)|]);
    cbn in Hp; try discriminate; injection Hp as <-; cbn;
    (split; [split; intros x Hx; try discriminate; injection Hx as <-; assumption|]);
    (split; [intros; try discriminate; reflexivity|]);
    intros s Hs; try discriminate; injection Hs as <-; assumption.
Qed.

Lemma number_if_truthy_valid (page limit : option Z) :
  valid_page_inputs page limit ->
  number_if_truthy page = page /\ number_if_truthy limit = limit.
Proof.
  intros [Hp Hl]. unfold number_if_truthy. split.
  - destruct page as [p|]; [|reflexivity]. specialize (Hp p eq_refl).
    destruct (Z.eqb_spec p 0); [lia|reflexivity].
  - destruct limit as [l|]; [|reflexivity]. specialize (Hl l eq_refl).
    destruct (Z.eqb_spec l 0); [lia|reflexivity].
Qed.

End Sorting.

Section SortingClaim.

Context `{RT : Runtime}.
Variable env : Env.

Lemma findAll_fallback (sortBy : string) (limit offset : Z) (dir : option string) (w : World) :
  Js.includes itemRepo.ALLOWED_SORT_FIELDS sortBy = false ->
  itemRepo.findAll limit offset (Some sortBy) dir w = itemRepo.findAll limit offset None dir w.
Proof.
  intros Hi. unfold itemRepo.findAll. cbn [Js.nullish].
  unfold itemRepo.safeSortBy at 1. now rewrite Hi.
Qed.

(** C2, as the code has it. In the repository and the service, a [sortBy]
    outside the whitelist is replaced by [created_at]: the statement sent,
    and so the rows returned, are those of a call without [sortBy] (in
    descending order when no direction is given), and the call does not
    fail. On [GET /api/items] the query schema comes first: a request
    whose [sortBy] is outside the whitelist is answered 400 "Données
    invalides" and no statement reaches the store, while a request without
    [sortBy] that passes validation is listed by [created_at]. *)
Theorem C2_sortBy_fallback_below_the_schema (sortBy : string) :
  Js.includes itemRepo.ALLOWED_SORT_FIELDS sortBy = false ->
  (forall limit offset dir w,
      itemRepo.findAll limit offset (Some sortBy) dir w
      = itemRepo.findAll limit offset None dir w)
  /\ (forall limit offset w,
         0 <= limit -> 0 <= offset ->
         exists rows,
           itemRepo.findAll limit offset (Some sortBy) None w =
             (Return rows, after w [SqlExecute (SelectPage "created_at" "DESC" limit offset)]))
  /\ (forall page limit sortDirection w,
         itemService.listItems env page limit (Some sortBy) sortDirection w
         = itemService.listItems env page limit None sortDirection w)
  /\ (forall request w t payload,
         extract_token request = Some t -> t <> "" ->
         jwt_verify t (JWT_SECRET env) (now w) = Return payload ->
         query request !! "sortBy" = Some sortBy ->
         exists issues,
           In (issue "sortBy" InvalidEnumValue) issues
           /\ GET_items env request w =
                (Return tt,
                 after w [JwtVerify t (JWT_SECRET env); ResStatus 400;
                          ResJson (errorResponse "Données invalides"
                                     (Some (JArr (map issue_json issues))))]))
  /\ (forall request w t payload parsed,
         env_valid env ->
         extract_token request = Some t -> t <> "" ->
         jwt_verify t (JWT_SECRET env) (now w) = Return payload ->
         query request !! "sortBy" = None ->
         ListItemsQuerySchema_parse (query request) = Return parsed ->
         exists dir body,
           (q_sortDirection parsed = None -> dir = "DESC")
           /\ GET_items env request w =
                (Return tt,
                 after w [JwtVerify t (JWT_SECRET env);
                          SqlExecute (SelectPage "created_at" dir
                                        (itemService.pageLimit_of env (q_limit parsed))
                                        (Js.mul (Js.sub (Js.nullish (q_page parsed) 1) 1)
                                           (itemService.pageLimit_of env (q_limit parsed))));
                          SqlExecute SelectCount;
                          ResJson body])).
Proof.
  intros Hi. split; [|split; [|split; [|split]]].
  - intros limit offset dir w. now apply findAll_fallback.
  - intros limit offset w Hl Ho.
    rewrite (findAll_fallback sortBy limit offset None w Hi).
    destruct (order_by_safe "created_at" "DESC" (items (store w))) as [sorted [Hs _]].
    unfold itemRepo.findAll, pool_execute, bind, emit, ret, after.
    cbn -[Db.order_by Z.ltb take drop Z.to_nat].
    change (Db.order_by "created_at" "DESC" (items (store w)) = Some sorted) in Hs.
    change (itemRepo.safeSortDir "DESC") with "DESC".
    rewrite Hs. replace ((limit <? 0) || (offset <? 0)) with false by lia.
    cbn -[take drop Z.to_nat]. eexists. now destruct (store w).
  - intros page limit sortDirection w.
    unfold itemService.listItems, bind, promise_all2.
    now rewrite (findAll_fallback sortBy _ _ _ w Hi).
  - intros request w t payload He Ht Hv Hq.
    destruct (authMiddleware_passes env request w t payload He Ht Hv) as [request' [Ha Hq']].
    destruct (parse_rejects_sortBy (query request) sortBy Hq Hi) as [issues [Hp Hin]].
    exists issues. split; [exact Hin|].
    unfold GET_items, protected, bind. rewrite Ha.
    unfold try_catch, bind, validateQuery_ListItems. rewrite Hq', Hp.
    unfold errorMiddleware, after, bind, emit. cbn. now flatten_trace.
  - intros request w t payload parsed Henv He Ht Hv Hq Hp.
    destruct (authMiddleware_passes env request w t payload He Ht Hv) as [request' [Ha Hq']].
    destruct (parse_accepts (query request) parsed Hp) as (Hvalid & Hnone & _).
    destruct (number_if_truthy_valid _ _ Hvalid) as [Hnp Hnl].
    destruct Hvalid as [Hvp Hvl].
    pose proof (pageLimit_positive env (q_limit parsed) Henv Hvl) as HL.
    assert (0 < Js.nullish (q_page parsed) 1) as Hpage.
    { destruct (q_page parsed) as [p|]; simpl; [now apply Hvp|lia]. }
    destruct (listItems_run env (q_page parsed) (q_limit parsed) (q_sortBy parsed)
                (q_sortDirection parsed) (after w [JwtVerify t (JWT_SECRET env)])
                ltac:(lia) (offset_nonneg _ _ Hpage HL)) as [sorted (_ & _ & Hrun)].
    rewrite (Hnone Hq) in Hrun.
    exists (itemRepo.safeSortDir (itemService.direction_of (q_sortDirection parsed))).
    eexists. split.
    + intros Hd. now rewrite Hd.
    + unfold GET_items, protected, bind. rewrite Ha.
      unfold try_catch, bind, validateQuery_ListItems. rewrite Hq', Hp.
      unfold listItemsHandler, bind. rewrite Hnp, Hnl, (Hnone Hq), Hrun.
      unfold emit, after. cbn -[Js.mul Js.sub Math_ceil_div take drop Z.to_nat Z.of_nat List.length].
      flatten_trace. reflexivity.
Qed.

End SortingClaim.

(** C2, as the claim reads, fails on [GET /api/items?sortBy=1=1; DROP]:
    the field is not in the whitelist, the answer is the 400 validation
    error, and it differs from the answer to the same request without
    [sortBy], which is 200. *)
Lemma C2_counterexample :
  Js.includes itemRepo.ALLOWED_SORT_FIELDS "1=1; DROP" = false
  /\ res_status (response_of (trace
        (GET_items (RT:=Sample.runtime) Sample.env Sample.list_sorted_by_injection Sample.world).2))
     = 400
  /\ statements_of (trace
        (GET_items (RT:=Sample.runtime) Sample.env Sample.list_sorted_by_injection Sample.world).2)
     = []
  /\ res_status (response_of (trace
        (GET_items (RT:=Sample.runtime) Sample.env Sample.list_plain Sample.world).2))
     = 200
  /\ statements_of (trace
        (GET_items (RT:=Sample.runtime) Sample.env Sample.list_plain Sample.world).2)
     = [SelectPage "created_at" "DESC" 10 0; SelectCount].
Proof.
  vm_compute. repeat split; reflexivity.
Qed.

Lemma C2_sortBy_fallback_below_the_schema_witness :
  itemService.listItems Sample.env (Some 1) None (Some "1=1; DROP") None Sample.world
  = itemService.listItems Sample.env (Some 1) None None None Sample.world.
Proof.
  apply (C2_sortBy_fallback_below_the_schema (RT:=Sample.runtime) Sample.env "1=1; DROP").
  reflexivity.
Defined.

(** * Further properties of the code *)

(** ** The error handler and the authentication gate *)

Section Gate.

Context `{RT : Runtime}.
Variable env : Env.

(** X1. What [errorMiddleware] does with each error. An [HttpError] is
    answered with its own status and message when the status lies between
    100 and 999; with a status outside that range [res.status] throws a
    [RangeError] and nothing is sent. An error of zod is answered 400
    "Données invalides" with its issues as details, an error of
    jsonwebtoken 401 "Token invalide". Every other error is logged and
    answered 500, with the fixed message in production and its own message
    otherwise. These cases cover every error, and the log is written in
    the last one only. *)
Theorem X1_errorMiddleware_answers_or_throws (e : JsError) (w : World) :
  (instanceof e ClsHttpError = true ->
     (100 <= err_statusCode e <= 999 ->
      errorMiddleware env e w =
        (Return tt,
         after w [ResStatus (err_statusCode e);
                  ResJson (JObj [("success", JBool false);
                                 ("error", JStr (err_message e))])]))
     /\ (err_statusCode e < 100 \/ 999 < err_statusCode e ->
         errorMiddleware env e w =
           (Throw (RangeError ("Invalid status code: " +:+ pretty (err_statusCode e)
                               +:+ ". Status code must be greater than 99 and less than 1000.")),
            w)))
  /\ (instanceof e ClsHttpError = false ->
      instanceof e ClsZodError = true ->
      errorMiddleware env e w =
        (Return tt,
         after w [ResStatus 400;
                  ResJson (JObj [("success", JBool false);
                                 ("error", JStr "Données invalides");
                                 ("details", JArr (map issue_json (err_issues e)))])]))
  /\ (instanceof e ClsHttpError = false ->
      instanceof e ClsZodError = false ->
      instanceof e ClsJsonWebTokenError = true ->
      errorMiddleware env e w =
        (Return tt,
         after w [ResStatus 401;
                  ResJson (JObj [("success", JBool false);
                                 ("error", JStr "Token invalide")])]))
  /\ (unclassified e = true ->
      errorMiddleware env e w =
        (Return tt,
         after w [LoggerError "Erreur non gérée"
                    [("message", JStr (err_message e)); ("stack", JStr (err_stack e))];
                  ResStatus 500;
                  ResJson (JObj [("success", JBool false);
                                 ("error", JStr (if is_production env then "Erreur serveur"
                                                 else err_message e))])]))
  /\ (instanceof e ClsHttpError = true
      \/ (instanceof e ClsHttpError = false /\ instanceof e ClsZodError = true)
      \/ (instanceof e ClsHttpError = false /\ instanceof e ClsZodError = false
          /\ instanceof e ClsJsonWebTokenError = true)
      \/ unclassified e = true).
Proof.
  split; [|split; [|split; [|split]]].
  - intros Hh. unfold errorMiddleware. rewrite Hh. unfold set_status. split.
    + intros Hr.
      replace ((err_statusCode e <? 100) || (999 <? err_statusCode e)) with false by lia.
      unfold bind, emit, after. cbn. now flatten_trace.
    + intros Hr.
      replace ((err_statusCode e <? 100) || (999 <? err_statusCode e)) with true by lia.
      reflexivity.
  - intros H1 H2. unfold errorMiddleware. rewrite H1, H2.
    unfold bind, emit, after. cbn. now flatten_trace.
  - intros H1 H2 H3. unfold errorMiddleware. rewrite H1, H2, H3.
    unfold bind, emit, after. cbn. now flatten_trace.
  - unfold unclassified, errorMiddleware. intros Hu.
    destruct (instanceof e ClsHttpError); [discriminate|].
    destruct (instanceof e ClsZodError); [discriminate|].
    destruct (instanceof e ClsJsonWebTokenError); [discriminate|].
    destruct (instanceof e ClsTokenExpiredError); [discriminate|].
    unfold bind, emit, after. cbn. now flatten_trace.
  - unfold unclassified, instanceof. destruct (err_class e); cbn; auto 10.
Qed.

(** Any error of jsonwebtoken is answered 401 "Token invalide". *)
Lemma errorMiddleware_jwt (e : JsError) (w : World) :
  instanceof e ClsJsonWebTokenError = true ->
  errorMiddleware env e w =
    (Return tt, after w [ResStatus 401; ResJson (errorResponse "Token invalide" None)]).
Proof.
  unfold errorMiddleware, instanceof, after, bind, emit.
  destruct (err_class e); cbn; try discriminate; intros _; now flatten_trace.
Qed.

(** X2. A protected route is not entered without a token that verifies.
    When neither the header nor the cookie gives a token, or [jwt.verify]
    throws one of its errors, the answer is 401, nothing is sent to the
    store, the table is unchanged, and the outcome is the same whatever
    the route behind the gate is. *)
Theorem X2_gate_keeps_route_out (request : Request) (route other : Request -> M unit) (w : World) :
  (Js.truthy (extract_token request) = false
   \/ exists t e, extract_token request = Some t /\ t <> ""
                  /\ jwt_verify t (JWT_SECRET env) (now w) = Throw e
                  /\ instanceof e ClsJsonWebTokenError = true) ->
  exists effects,
    protected env request route w = (Return tt, after w effects)
    /\ protected env request other w = protected env request route w
    /\ res_status (response_of effects) = 401
    /\ res_sent (response_of effects) = true
    /\ res_cookies (response_of effects) = []
    /\ statements_of effects = [].
Proof.
  intros [Hmiss|(t & e & He & Ht & Hv & Hc)].
  - unfold protected, authMiddleware, bind. rewrite Hmiss. cbn.
    unfold bind, emit, ret, after. cbn. flatten_trace.
    eexists. split; [reflexivity|]. repeat split; reflexivity.
  - unfold protected, authMiddleware, bind. rewrite He, (truthy_Some t Ht). cbn.
    unfold try_catch, bind, jwt_verify_call, bind, emit, ret. cbn. rewrite Hv.
    rewrite (errorMiddleware_jwt e _ Hc). unfold after. cbn. flatten_trace.
    eexists. split; [reflexivity|]. repeat split; reflexivity.
Qed.

(** X3. With a token that verifies, the gate answers nothing itself: it
    calls [jwt.verify] once, attaches the decoded payload as the user of
    the request, and runs the route on that request with [errorMiddleware]
    behind it. *)
Theorem X3_gate_lets_verified_token_in
        (request : Request) (route : Request -> M unit) (w : World)
        (t : string) (payload : AuthPayload) :
  authenticated_as env request w t payload ->
  authMiddleware env request w =
    (Return (Next (with_user request payload)), after w [JwtVerify t (JWT_SECRET env)])
  /\ protected env request route w =
       try_catch (route (with_user request payload)) (errorMiddleware env)
                 (after w [JwtVerify t (JWT_SECRET env)]).
Proof.
  intros (He & Ht & Hv).
  assert (authMiddleware env request w =
            (Return (Next (with_user request payload)), after w [JwtVerify t (JWT_SECRET env)]))
    as Ha.
  { unfold authMiddleware. rewrite He, (truthy_Some t Ht). cbn.
    unfold try_catch, bind, jwt_verify_call, bind, emit, ret, after. cbn.
    now rewrite Hv. }
  split; [exact Ha|]. unfold protected, bind. now rewrite Ha.
Qed.

(** X4. The token that a successful login puts in the [authToken] cookie
    and in the body is found again by [authMiddleware]: in the cookie jar
    of a client that sends the cookies back, and in a bearer header built
    from the body. If [jwt.verify] accepts what [jwt.sign] produced, both
    requests pass the gate. The cookie is flagged secure exactly in
    production, same-site strict, and lives as long as the token. *)
Theorem X4_login_token_passes_the_gate
        (password : string) (w w2 : World) (payload : AuthPayload) :
  let token := jwt_sign {| authenticated := true; timestamp := now w |}
                        (JWT_SECRET env) (JWT_EXPIRY env) (now w) in
  bcrypt_compare password (PASSWORD_HASH env) = true ->
  token <> "" ->
  jwt_verify token (JWT_SECRET env) (now w2) = Return payload ->
  exists effects options,
    adds (POST_login env password) w effects
    /\ res_cookies (response_of effects) = [("authToken", token, options)]
    /\ secure options = is_production env
    /\ sameSite options = "strict"
    /\ maxAge options = JWT_EXPIRY env * 1000
    /\ (forall q,
          let by_cookie := {| authorization := None;
                              cookies := Some (jar_of (res_cookies (response_of effects)));
                              query := q; user := None |} in
          let by_header := {| authorization := Some ("Bearer " +:+ token);
                              cookies := None; query := q; user := None |} in
          authenticated_as env by_cookie w2 token payload
          /\ authenticated_as env by_header w2 token payload).
Proof.
  intros token Hc Ht Hv.
  unfold adds, POST_login, try_catch, loginHandler, bcrypt_compare_call, jwt_sign_call,
    date_now, bind, emit, ret.
  cbn. rewrite Hc. cbn. fold token. flatten_trace.
  eexists _, _. split; [reflexivity|]. cbn.
  split; [reflexivity|]. split; [reflexivity|]. split; [reflexivity|]. split; [reflexivity|].
  intros q. split.
  - split; [|split; assumption].
    unfold extract_token, cookie_token, jar_of. cbn.
    now rewrite lookup_insert_eq.
  - split; [|split; assumption].
    apply extract_token_header. split; [assumption|reflexivity].
Qed.

End Gate.

Lemma X2_gate_keeps_route_out_witness :
  exists effects,
    protected (RT:=Sample.runtime) Sample.env
      (Sample.request (Some "Bearer forged") None ∅) (fun _ => deleteItemHandler 2) Sample.world
    = (Return tt, after Sample.world effects)
    /\ res_status (response_of effects) = 401
    /\ statements_of effects = [].
Proof.
  destruct (X2_gate_keeps_route_out (RT:=Sample.runtime) Sample.env
              (Sample.request (Some "Bearer forged") None ∅)
              (fun _ => deleteItemHandler 2) (fun _ => ret tt) Sample.world)
    as [effects (H1 & _ & H3 & _ & _ & H6)].
  - right. exists "forged", (JsonWebTokenError "invalid signature").
    split; [reflexivity|]. split; [discriminate|]. split; reflexivity.
  - exists effects. repeat split; assumption.
Defined.

Lemma X3_gate_lets_verified_token_in_witness :
  authMiddleware (RT:=Sample.runtime) Sample.env Sample.list_plain Sample.world =
    (Return (Next (with_user Sample.list_plain {| authenticated := true; timestamp := 1000 |})),
     after Sample.world [JwtVerify "good-token" "secret"]).
Proof.
  apply (X3_gate_lets_verified_token_in (RT:=Sample.runtime) Sample.env Sample.list_plain
           (fun _ => ret tt) Sample.world "good-token").
  split; [reflexivity|]. split; [discriminate|reflexivity].
Defined.

Lemma X4_login_token_passes_the_gate_witness :
  exists effects options,
    adds (POST_login (RT:=Sample.runtime) Sample.env "admin") Sample.world effects
    /\ res_cookies (response_of effects) = [("authToken", "good-token", options)].
Proof.
  destruct (X4_login_token_passes_the_gate (RT:=Sample.runtime) Sample.env "admin"
              Sample.world Sample.world {| authenticated := true; timestamp := 1000 |})
    as (effects & options & H1 & H2 & _).
  - reflexivity.
  - discriminate.
  - reflexivity.
  - exists effects, options. split; assumption.
Defined.

(** ** The ORDER BY clause and the page window *)

Lemma direction_of_cases (sortDirection : option string) :
  (itemService.direction_of sortDirection = "ASC"
   /\ exists d, sortDirection = Some d /\ Js.toUpperCase d = "ASC")
  \/ (itemService.direction_of sortDirection = "DESC"
      /\ forall d, sortDirection = Some d -> Js.toUpperCase d <> "ASC").
Proof.
  unfold itemService.direction_of. destruct sortDirection as [d|].
  - destruct (String.eqb_spec (Js.toUpperCase d) "ASC") as [Hd|Hd].
    + left. split; [reflexivity|]. now exists d.
    + right. split; [reflexivity|]. intros d' Hd'. now injection Hd' as <-.
  - right. split; [reflexivity|]. intros d Hd. discriminate.
Qed.

Lemma safeSortDir_direction_of (sortDirection : option string) :
  itemRepo.safeSortDir (itemService.direction_of sortDirection)
  = itemService.direction_of sortDirection.
Proof.
  destruct (direction_of_cases sortDirection) as [[-> _]|[-> _]]; reflexivity.
Qed.

Lemma In_includes (xs : list string) (x : string) : In x xs -> Js.includes xs x = true.
Proof.
  intros Hin. unfold Js.includes. apply existsb_exists. exists x.
  split; [assumption|]. apply String.eqb_refl.
Qed.

Lemma upper_ascii_A (c : ascii) :
  Js.upper_ascii c = "A"%char -> c = "a"%char \/ c = "A"%char.
Proof.
  destruct c as [[] [] [] [] [] [] [] []]; vm_compute; intros H;
    first [discriminate H | now left | now right].
Qed.

Lemma upper_ascii_S (c : ascii) :
  Js.upper_ascii c = "S"%char -> c = "s"%char \/ c = "S"%char.
Proof.
  destruct c as [[] [] [] [] [] [] [] []]; vm_compute; intros H;
    first [discriminate H | now left | now right].
Qed.

Lemma upper_ascii_C (c : ascii) :
  Js.upper_ascii c = "C"%char -> c = "c"%char \/ c = "C"%char.
Proof.
  destruct c as [[] [] [] [] [] [] [] []]; vm_compute; intros H;
    first [discriminate H | now left | now right].
Qed.

(** The strings that read ASC in upper case. *)
Lemma toUpperCase_ASC (d : string) :
  Js.toUpperCase d = "ASC"
  <-> In d ["asc"; "asC"; "aSc"; "aSC"; "Asc"; "AsC"; "ASc"; "ASC"].
Proof.
  split.
  - destruct d as [|c1 [|c2 [|c3 [|c4 r]]]]; simpl; intros H; try discriminate H.
    injection H as H1 H2 H3.
    apply upper_ascii_A in H1. apply upper_ascii_S in H2. apply upper_ascii_C in H3.
    destruct H1 as [->| ->], H2 as [->| ->], H3 as [->| ->]; auto 10.
  - intros Hin. repeat (destruct Hin as [<-|Hin]; [reflexivity|]). destruct Hin.
Qed.

Lemma direction_of_spelled (sortDirection : option string) :
  let dir := itemRepo.safeSortDir (itemService.direction_of sortDirection) in
  In dir ["ASC"; "DESC"]
  /\ (sortDirection = None -> dir = "DESC")
  /\ (forall d, sortDirection = Some d ->
                In d ["asc"; "asC"; "aSc"; "aSC"; "Asc"; "AsC"; "ASc"; "ASC"] -> dir = "ASC")
  /\ (forall d, sortDirection = Some d ->
                ~ In d ["asc"; "asC"; "aSc"; "aSC"; "Asc"; "AsC"; "ASc"; "ASC"] -> dir = "DESC").
Proof.
  cbv zeta. rewrite safeSortDir_direction_of.
  destruct (direction_of_cases sortDirection) as [[Hd (d0 & Hs & Hu)]|[Hd Hno]]; rewrite Hd.
  - split; [simpl; auto|]. split; [intros Hn; congruence|]. split; [reflexivity|].
    intros d Hsd Hnot. exfalso. apply Hnot. apply toUpperCase_ASC. congruence.
  - split; [simpl; auto|]. split; [reflexivity|]. split; [|reflexivity].
    intros d Hsd Hin. exfalso. apply (Hno d Hsd). now apply toUpperCase_ASC.
Qed.

(** X5. Whatever strings are passed as sort field and direction, the one
    statement [findAll] sends orders by a column of the whitelist and by
    ASC or DESC: a whitelisted field is used as given, every other and a
    missing one become [created_at]; a direction that spells "asc" in any
    mix of cases gives ASC, and every other string of ASCII characters and
    a missing direction give DESC. The limit and offset travel as bound
    values and the table is not changed. *)
Theorem X5_findAll_order_by_is_whitelisted
        (limit offset : Z) (sortBy sortDirection : option string) (w : World) :
  exists col dir,
    adds (itemRepo.findAll limit offset sortBy sortDirection) w
         [SqlExecute (SelectPage col dir limit offset)]
    /\ In col ["id"; "name"; "created_at"; "updated_at"]
    /\ In dir ["ASC"; "DESC"]
    /\ (forall s, sortBy = Some s -> In s ["id"; "name"; "created_at"; "updated_at"] -> col = s)
    /\ (forall s, sortBy = Some s -> ~ In s ["id"; "name"; "created_at"; "updated_at"] ->
                  col = "created_at")
    /\ (sortBy = None -> col = "created_at")
    /\ (sortDirection = None -> dir = "DESC")
    /\ (forall d, sortDirection = Some d ->
                  In d ["asc"; "asC"; "aSc"; "aSC"; "Asc"; "AsC"; "ASc"; "ASC"] ->
                  dir = "ASC")
    /\ (forall d, sortDirection = Some d ->
                  Js.is_ascii d = true ->
                  ~ In d ["asc"; "asC"; "aSc"; "aSC"; "Asc"; "AsC"; "ASc"; "ASC"] ->
                  dir = "DESC")
    /\ store (itemRepo.findAll limit offset sortBy sortDirection w).2 = store w.
Proof.
  exists (itemRepo.safeSortBy (Js.nullish sortBy "created_at")),
         (itemRepo.safeSortDir (Js.nullish sortDirection "DESC")).
  split; [|split; [|split; [|split; [|split; [|split; [|split; [|split; [|split]]]]]]]].
  - unfold adds, itemRepo.findAll, pool_execute, bind, emit, ret.
    cbn -[itemRepo.safeSortBy itemRepo.safeSortDir Db.order_by Z.ltb take drop Z.to_nat].
    destruct (Db.order_by _ _ _); [destruct ((limit <? 0) || (offset <? 0))|]; reflexivity.
  - apply safeSortBy_allowed.
  - apply safeSortDir_allowed.
  - intros s -> Hin. unfold itemRepo.safeSortBy. cbn [Js.nullish].
    now rewrite (In_includes itemRepo.ALLOWED_SORT_FIELDS s Hin).
  - intros s -> Hnot. unfold itemRepo.safeSortBy. cbn [Js.nullish].
    destruct (Js.includes itemRepo.ALLOWED_SORT_FIELDS s) eqn:Hi; [|reflexivity].
    exfalso. apply Hnot. now apply includes_cases.
  - intros ->. reflexivity.
  - intros ->. reflexivity.
  - intros d -> Hin. unfold itemRepo.safeSortDir. cbn [Js.nullish].
    apply toUpperCase_ASC in Hin. rewrite Hin. reflexivity.
  - intros d -> _ Hnot. unfold itemRepo.safeSortDir. cbn [Js.nullish].
    destruct (Js.includes itemRepo.ALLOWED_SORT_DIRECTIONS (Js.toUpperCase d)) eqn:Hi;
      [|reflexivity].
    apply includes_cases in Hi. destruct Hi as [Hi|[Hi|[]]]; [|now symmetry].
    exfalso. apply Hnot. apply toUpperCase_ASC. now symmetry.
  - unfold itemRepo.findAll, pool_execute, bind, emit, ret.
    cbn -[itemRepo.safeSortBy itemRepo.safeSortDir Db.order_by Z.ltb take drop Z.to_nat].
    destruct (Db.order_by _ _ _); [destruct ((limit <? 0) || (offset <? 0))|]; reflexivity.
Qed.

Section ListingMore.

Variable env : Env.

(** X6. For a positive page and limit, page number and configured maximum
    being safe integers, [listItems] returns after sending the page
    statement and then the count statement and nothing else, and leaves
    the table as it was. The page statement carries the limit in force and
    the rounded product as offset, a column of the whitelist, and as
    direction ASC when the requested direction spells "asc" in any mix of
    cases, DESC for every other string of ASCII characters and for a
    missing direction. *)
Theorem X6_listItems_only_reads
        (page limit : option Z) (sortBy sortDirection : option string) (w : World) :
  env_valid env ->
  valid_page_inputs page limit ->
  Js.nullish page 1 <= Js.MAX_SAFE_INTEGER ->
  MAX_PAGE_LIMIT env <= Js.MAX_SAFE_INTEGER ->
  let L := Z.min (Js.nullish limit (DEFAULT_PAGE_LIMIT env)) (MAX_PAGE_LIMIT env) in
  exists r col dir,
    itemService.listItems env page limit sortBy sortDirection w
    = (Return r,
       after w [SqlExecute (SelectPage col dir L
                              (Js.round_double ((Js.nullish page 1 - 1) * L)));
                SqlExecute SelectCount])
    /\ In col ["id"; "name"; "created_at"; "updated_at"]
    /\ In dir ["ASC"; "DESC"]
    /\ (sortDirection = None -> dir = "DESC")
    /\ (forall d, sortDirection = Some d ->
                  In d ["asc"; "asC"; "aSc"; "aSC"; "Asc"; "AsC"; "ASc"; "ASC"] ->
                  dir = "ASC")
    /\ (forall d, sortDirection = Some d ->
                  Js.is_ascii d = true ->
                  ~ In d ["asc"; "asC"; "aSc"; "aSC"; "Asc"; "AsC"; "ASc"; "ASC"] ->
                  dir = "DESC").
Proof.
  intros Henv Hv Hsafe _ L.
  destruct (listItems_run_valid env page limit sortBy sortDirection w Henv Hv)
    as (Hpage & _ & _ & sorted & _ & Hrun).
  unfold itemService.pageLimit_of in Hrun. fold L in Hrun.
  assert (Js.sub (Js.nullish page 1) 1 = Js.nullish page 1 - 1) as Hsub.
  { unfold Js.sub. apply round_double_safe.
    unfold Js.MAX_SAFE_INTEGER in Hsafe. rewrite Z.abs_eq; lia. }
  rewrite Hsub in Hrun.
  destruct (direction_of_spelled sortDirection) as (Hdir & Hnone & Hasc & Hdesc).
  eexists _, _, _. split; [exact Hrun|].
  split; [apply safeSortBy_allowed|]. split; [exact Hdir|]. split; [exact Hnone|].
  split; [exact Hasc|]. intros d Hd _. now apply Hdesc.
Qed.

Lemma ordered_rows_run (page limit : option Z) (sortBy sortDirection : option string) (w : World) :
  env_valid env -> valid_page_inputs page limit ->
  0 < itemService.pageLimit_of env limit
  /\ 0 < Js.nullish page 1
  /\ List.length (ordered_rows sortBy sortDirection (store w)) = List.length (items (store w))
  /\ (itemService.listItems env page limit sortBy sortDirection w).1 =
       Return {| data := take (Z.to_nat (itemService.pageLimit_of env limit))
                           (drop (Z.to_nat (Js.mul (Js.sub (Js.nullish page 1) 1)
                                                   (itemService.pageLimit_of env limit)))
                                 (ordered_rows sortBy sortDirection (store w)));
                 pagination :=
                   {| total := Z.of_nat (List.length (items (store w)));
                      page := Js.nullish page 1;
                      limit := itemService.pageLimit_of env limit;
                      totalPages :=
                        Math_ceil_div (Z.of_nat (List.length (items (store w))))
                                      (itemService.pageLimit_of env limit) |} |}.
Proof.
  intros Henv [Hp Hl].
  pose proof (pageLimit_positive env limit Henv Hl) as HL.
  assert (0 < Js.nullish page 1) as Hpage.
  { destruct page as [p|]; simpl; [now apply Hp|lia]. }
  destruct (listItems_run env page limit sortBy sortDirection w ltac:(lia)
              (offset_nonneg _ _ Hpage HL))
    as [sorted (Hs & Hlen & Hrun)].
  unfold ordered_rows. rewrite Hs, Hrun. simpl. auto.
Qed.

(** X8. A page holds the smaller of the limit in force and the number of
    rows left after the offset sent to the store: full pages before the
    end, the remainder on the last one, none beyond. For a table whose
    number of rows is a safe integer the offset can be read as
    [(page - 1) * limit]. *)
Theorem X8_page_size
        (reqPage reqLimit : option Z) (sortBy sortDirection : option string) (w : World) :
  env_valid env ->
  valid_page_inputs reqPage reqLimit ->
  exists r,
    (itemService.listItems env reqPage reqLimit sortBy sortDirection w).1 = Return r
    /\ Z.of_nat (List.length (data r))
       = Z.min (limit (pagination r))
               (Z.max 0 (total (pagination r)
                         - Js.mul (Js.sub (page (pagination r)) 1) (limit (pagination r))))
    /\ (total (pagination r) <= Js.MAX_SAFE_INTEGER ->
        Z.of_nat (List.length (data r))
        = Z.min (limit (pagination r))
                (Z.max 0 (total (pagination r)
                          - (page (pagination r) - 1) * limit (pagination r)))).
Proof.
  intros Henv Hv.
  destruct (ordered_rows_run reqPage reqLimit sortBy sortDirection w Henv Hv)
    as (HL & Hp & Hlen & Hrun).
  eexists. split; [exact Hrun|].
  cbn [data pagination total limit page].
  rewrite length_take, length_drop, Hlen.
  set (L := itemService.pageLimit_of env reqLimit) in *.
  set (p := Js.nullish reqPage 1) in *.
  set (T := List.length (items (store w))) in *.
  pose proof (offset_nonneg p L Hp HL) as Hoff.
  split; [lia|]. intros Hsafe. unfold Js.MAX_SAFE_INTEGER in Hsafe.
  destruct (Z.lt_ge_cases ((p - 1) * L) (2 ^ 53)) as [Hlt|Hge].
  - rewrite (offset_exact p L Hp HL Hlt).
    assert (0 <= (p - 1) * L) by nia. lia.
  - pose proof (offset_lower p L (2 ^ 53) Hp HL Hge ltac:(lia)). lia.
Qed.

End ListingMore.

(** ** Rows and identifiers *)

Lemma has_id_true (key : Z) (r : DBItem) : Db.has_id key r = true <-> id r = key.
Proof. unfold Db.has_id. apply Z.eqb_eq. Qed.

Lemma filter_has_id_nil (key : Z) (l : list DBItem) :
  ~ In key (map id l) -> List.filter (Db.has_id key) l = [].
Proof.
  intros Hno. apply filter_has_id_missing. intros [r [Hin Hid]].
  apply Hno. rewrite <- Hid. now apply in_map.
Qed.

(** With distinct identifiers a lookup finds the row and only it. *)
Lemma filter_has_id_unique (l : list DBItem) (r : DBItem) :
  NoDup (map id l) -> In r l -> List.filter (Db.has_id (id r)) l = [r].
Proof.
  induction l as [|x l IH]; intros Hnd Hin; [destruct Hin|].
  simpl in Hnd. apply NoDup_cons in Hnd. destruct Hnd as [Hx Hnd].
  rewrite list_elem_of_In in Hx.
  simpl. destruct (Db.has_id (id r) x) eqn:Hh.
  - apply has_id_true in Hh. destruct Hin as [->|Hin].
    + now rewrite (filter_has_id_nil _ _ Hx).
    + exfalso. apply Hx. rewrite Hh. now apply in_map.
  - destruct Hin as [->|Hin].
    + unfold Db.has_id in Hh. rewrite Z.eqb_refl in Hh. discriminate.
    + apply IH; [|assumption]. exact Hnd.
Qed.

Lemma getItem_unique (key : Z) (r : DBItem) (w : World) :
  rows_with key (store w) = [r] ->
  itemService.getItem key w = (Return r, after w [SqlExecute (SelectById key)]).
Proof.
  intros Hr. unfold rows_with in Hr.
  unfold itemService.getItem, itemRepo.findById, pool_execute, bind, emit, ret, after.
  cbn -[List.filter]. rewrite Hr. cbn. now destruct (store w).
Qed.

Lemma assign_id (r : DBItem) (set : Column * string) : id (Db.assign r set) = id r.
Proof. now destruct set as [[] v]. Qed.

Lemma foldl_assign_id (sets : list (Column * string)) (r : DBItem) :
  id (foldl Db.assign r sets) = id r.
Proof.
  revert r. induction sets as [|s sets IH]; intros r; simpl; [reflexivity|].
  now rewrite IH, assign_id.
Qed.

Lemma same_data_sound (a b : DBItem) :
  Db.same_data a b = true -> name a = name b /\ description a = description b.
Proof.
  unfold Db.same_data. intros Hs. apply andb_true_iff in Hs. destruct Hs as [Hn Hd].
  apply String.eqb_eq in Hn. split; [assumption|].
  destruct (description a), (description b); try discriminate; [|reflexivity].
  apply String.eqb_eq in Hd. now subst.
Qed.

(** What UPDATE leaves in a row it matches: the assigned columns, the same
    identifier and creation time. *)
Lemma update_row_matched (now_ : Z) (patch : UpdateItemPatch) (r : DBItem) :
  let r' := Db.update_row now_ (itemRepo.update_sets patch) (id r) r in
  id r' = id r
  /\ name r' = Js.nullish (patch_name patch) (name r)
  /\ description r' = match patch_description patch with
                      | Some d => Some d
                      | None => description r
                      end
  /\ created_at r' = created_at r.
Proof.
  unfold Db.update_row, Db.has_id. rewrite Z.eqb_refl.
  destruct (Db.same_data r (foldl Db.assign r (itemRepo.update_sets patch))) eqn:Hs.
  - apply same_data_sound in Hs. destruct Hs as [Hn Hd].
    unfold itemRepo.update_sets in *.
    destruct (patch_name patch), (patch_description patch); simpl in *; auto.
  - unfold itemRepo.update_sets.
    destruct (patch_name patch), (patch_description patch); simpl; auto.
Qed.

Lemma update_row_id (now_ : Z) (sets : list (Column * string)) (key : Z) (r : DBItem) :
  id (Db.update_row now_ sets key r) = id r.
Proof.
  unfold Db.update_row. destruct (Db.has_id key r); [|reflexivity].
  destruct (Db.same_data _ _); [reflexivity|]. simpl. apply foldl_assign_id.
Qed.

Lemma update_row_other (now_ : Z) (sets : list (Column * string)) (key : Z) (r : DBItem) :
  id r <> key -> Db.update_row now_ sets key r = r.
Proof.
  intros Hne. unfold Db.update_row, Db.has_id.
  now destruct (Z.eqb_spec (id r) key).
Qed.

Lemma filter_has_id_update (now_ : Z) (sets : list (Column * string)) (key key' : Z)
      (l : list DBItem) :
  List.filter (Db.has_id key') (map (Db.update_row now_ sets key) l)
  = map (Db.update_row now_ sets key) (List.filter (Db.has_id key') l).
Proof.
  induction l as [|x l IH]; simpl; [reflexivity|].
  replace (Db.has_id key' (Db.update_row now_ sets key x)) with (Db.has_id key' x)
    by (unfold Db.has_id; now rewrite update_row_id).
  destruct (Db.has_id key' x); simpl; now rewrite IH.
Qed.

Lemma map_update_row_other (now_ : Z) (sets : list (Column * string)) (key key' : Z)
      (l : list DBItem) :
  key' <> key ->
  map (Db.update_row now_ sets key) (List.filter (Db.has_id key') l)
  = List.filter (Db.has_id key') l.
Proof.
  intros Hne. induction l as [|x l IH]; simpl; [reflexivity|].
  destruct (Db.has_id key' x) eqn:Hh; [|exact IH].
  apply has_id_true in Hh. simpl. rewrite IH.
  rewrite update_row_other; [reflexivity|lia].
Qed.

Lemma filter_has_id_delete (key key' : Z) (l : list DBItem) :
  key' <> key ->
  List.filter (Db.has_id key') (List.filter (fun r => negb (Db.has_id key r)) l)
  = List.filter (Db.has_id key') l.
Proof.
  intros Hne. induction l as [|x l IH]; simpl; [reflexivity|].
  destruct (Db.has_id key x) eqn:Hk; simpl.
  - apply has_id_true in Hk.
    destruct (Db.has_id key' x) eqn:Hk'; [apply has_id_true in Hk'; lia|exact IH].
  - destruct (Db.has_id key' x); now rewrite IH.
Qed.

Lemma map_id_update (now_ : Z) (sets : list (Column * string)) (key : Z) (l : list DBItem) :
  map id (map (Db.update_row now_ sets key) l) = map id l.
Proof.
  induction l as [|x l IH]; simpl; [reflexivity|]. now rewrite update_row_id, IH.
Qed.

Lemma count_if_length (p : DBItem -> bool) (l : list DBItem) (rows : list DBItem) :
  List.filter p l = rows -> Db.count_if p l = Z.of_nat (List.length rows).
Proof. intros <-. reflexivity. Qed.

Lemma length_filter_split (p : DBItem -> bool) (l : list DBItem) :
  (List.length (List.filter p l) + List.length (List.filter (fun r => negb (p r)) l)
   = List.length l)%nat.
Proof.
  induction l as [|x l IH]; simpl; [reflexivity|].
  destruct (p x); simpl; lia.
Qed.

Lemma NoDup_ids_filter (p : DBItem -> bool) (l : list DBItem) :
  NoDup (map id l) -> NoDup (map id (List.filter p l)).
Proof.
  induction l as [|x l IH]; simpl; intros Hnd; [constructor|].
  apply NoDup_cons in Hnd. destruct Hnd as [Hx Hnd].
  destruct (p x); simpl; [|now apply IH].
  apply NoDup_cons. split; [|now apply IH].
  intros Hin. apply Hx. apply list_elem_of_In in Hin. apply list_elem_of_In.
  apply in_map_iff in Hin. destruct Hin as [r [Hr Hin]].
  apply filter_In in Hin. rewrite <- Hr. apply in_map. tauto.
Qed.

(** Every statement keeps identifiers distinct and below the next one. *)
Lemma run_keeps_store_ok (now_ : Z) (st : Statement) (s : Store) :
  store_ok s -> store_ok (Db.run now_ st s).2.
Proof.
  intros [Hnd Hlt]. destruct st; simpl.
  - destruct (Db.order_by _ _ _); [destruct ((_ <? 0) || (_ <? 0))|]; now split.
  - now split.
  - now split.
  - split; simpl.
    + rewrite map_app. simpl. apply NoDup_app. split; [exact Hnd|]. split.
      * intros x Hx [Hin|[]]%list_elem_of_In. subst x.
        apply list_elem_of_In, in_map_iff in Hx. destruct Hx as [r [Hr Hin]].
        rewrite Forall_forall in Hlt. apply list_elem_of_In in Hin.
        specialize (Hlt r Hin). lia.
      * apply NoDup_singleton.
    + apply Forall_app. split.
      * eapply Forall_impl; [exact Hlt|]. intros r Hr. simpl in Hr. lia.
      * constructor; [simpl; lia|constructor].
  - destruct sets as [|s0 sets]; [now split|]. split; simpl.
    + now rewrite map_id_update.
    + apply Forall_map. eapply Forall_impl; [exact Hlt|].
      intros r Hr. simpl. now rewrite update_row_id.
  - split; simpl.
    + now apply NoDup_ids_filter.
    + apply Forall_forall. intros r Hin. rewrite Forall_forall in Hlt.
      apply Hlt. apply list_elem_of_In. apply list_elem_of_In in Hin.
      apply filter_In in Hin. tauto.
Qed.

(** ** Create, update and delete on a table with distinct identifiers *)

Lemma rows_with_unique (s : Store) (r : DBItem) :
  store_ok s -> In r (items s) -> rows_with (id r) s = [r].
Proof.
  intros [Hnd _] Hin. unfold rows_with. now apply filter_has_id_unique.
Qed.

Lemma next_id_is_fresh (s : Store) : store_ok s -> ~ row_exists (next_id s) s.
Proof.
  intros [_ Hlt] [r [Hin Hid]]. rewrite Forall_forall in Hlt.
  apply list_elem_of_In in Hin. specialize (Hlt r Hin). simpl in Hlt. lia.
Qed.

(** X9. On a table with distinct identifiers, [createItem] sends one
    INSERT and returns an identifier no row had; a [getItem] of that
    identifier then returns the name and description given (no description
    is stored as NULL) with both timestamps at the time of insertion; every
    other lookup is as before, the count grows by one, and the handler
    answers 201 with the identifier. *)
Theorem X9_create_then_get (n : string) (d : option string) (w : World) :
  store_ok (store w) ->
  let k := next_id (store w) in
  let row := {| id := k; name := n; description := d;
                created_at := now w; updated_at := now w |} in
  let w1 := (itemService.createItem n d w).2 in
  itemService.createItem n d w = (Return k, w1)
  /\ adds (itemService.createItem n d) w [SqlExecute (InsertItem n d)]
  /\ ~ row_exists k (store w)
  /\ itemService.getItem k w1 = (Return row, after w1 [SqlExecute (SelectById k)])
  /\ (forall key, key <> k -> rows_with key (store w1) = rows_with key (store w))
  /\ (itemRepo.countAll w1).1 = Return (Z.of_nat (List.length (items (store w))) + 1)
  /\ store_ok (store w1)
  /\ adds (createItemHandler n d) w
          [SqlExecute (InsertItem n d); ResStatus 201;
           ResJson (successResponse [("id", JNum k)])].
Proof.
  intros Hok k row w1.
  pose proof (next_id_is_fresh _ Hok) as Hfresh.
  assert (Hrun : itemService.createItem n d w =
            (Return k, {| store := {| items := items (store w) ++ [row]; next_id := k + 1 |};
                          now := now w;
                          trace := trace w ++ [SqlExecute (InsertItem n d)] |})).
  { reflexivity. }
  assert (Hw1 : w1 = {| store := {| items := items (store w) ++ [row]; next_id := k + 1 |};
                        now := now w;
                        trace := trace w ++ [SqlExecute (InsertItem n d)] |}).
  { unfold w1. now rewrite Hrun. }
  split; [now rewrite Hw1|]. split; [unfold adds; now rewrite Hrun|].
  split; [exact Hfresh|].
  assert (Hrows : forall key, rows_with key (store w1)
                              = (rows_with key (store w) ++ if Db.has_id key row then [row] else [])%list).
  { intros key. rewrite Hw1. unfold rows_with. cbn [store items].
    rewrite List.filter_app. simpl. now destruct (Db.has_id key row). }
  split; [|split; [|split; [|split]]].
  - apply getItem_unique. rewrite Hrows.
    unfold rows_with. rewrite (filter_has_id_missing k _ Hfresh).
    unfold Db.has_id. simpl. now rewrite Z.eqb_refl.
  - intros key Hne. rewrite Hrows. unfold Db.has_id. simpl.
    destruct (Z.eqb_spec k key); [lia|]. now rewrite app_nil_r.
  - rewrite Hw1. unfold itemRepo.countAll, pool_execute, bind, emit, ret.
    cbn -[Z.of_nat]. rewrite length_app. simpl. f_equal. lia.
  - replace (store w1) with (Db.run (now w) (InsertItem n d) (store w)).2
      by (rewrite Hw1; reflexivity).
    now apply run_keeps_store_ok.
  - unfold adds, createItemHandler, bind. rewrite Hrun. unfold emit. cbn.
    now flatten_trace.
Qed.

Lemma update_sets_nil (patch : UpdateItemPatch) :
  itemRepo.update_sets patch = [] <-> patch = empty_patch.
Proof.
  unfold itemRepo.update_sets, empty_patch.
  destruct patch as [[n|] [d|]]; simpl; split; intros Hx; try discriminate; reflexivity.
Qed.

(** X10. On a table with distinct identifiers, [updateItem] on an existing
    row succeeds; a [getItem] afterwards shows the fields named by the
    patch at their new values and the name or description the patch leaves
    out unchanged, with the same identifier and creation time. Lookups of
    every other identifier are as before and no row is added or removed. *)
Theorem X10_update_changes_named_fields
        (key : Z) (patch : UpdateItemPatch) (w : World) (r : DBItem) :
  store_ok (store w) ->
  In r (items (store w)) ->
  id r = key ->
  let w1 := (itemService.updateItem key patch w).2 in
  exists h r',
    itemService.updateItem key patch w = (Return h, w1)
    /\ itemService.getItem key w1 = (Return r', after w1 [SqlExecute (SelectById key)])
    /\ id r' = key
    /\ name r' = Js.nullish (patch_name patch) (name r)
    /\ description r' = match patch_description patch with
                        | Some d => Some d
                        | None => description r
                        end
    /\ created_at r' = created_at r
    /\ (forall key', key' <> key -> rows_with key' (store w1) = rows_with key' (store w))
    /\ List.length (items (store w1)) = List.length (items (store w))
    /\ store_ok (store w1).
Proof.
  intros Hok Hin Hid w1. subst key.
  pose proof (rows_with_unique _ _ Hok Hin) as Hr.
  pose proof (getItem_unique _ _ _ Hr) as Hg.
  destruct (itemRepo.update_sets patch) as [|s0 sets] eqn:Hsets.
  - assert (Hrun : itemService.updateItem (id r) patch w =
              (Return {| affectedRows := 0; fieldCount := 0; info := ""; insertId := 0;
                         serverStatus := 0; warningStatus := 0; changedRows := 0 |},
               after w [SqlExecute (SelectById (id r))])).
    { unfold itemService.updateItem, bind. rewrite Hg.
      unfold itemRepo.update. now rewrite Hsets. }
    apply update_sets_nil in Hsets.
    unfold w1. rewrite Hrun. cbn [snd]. eexists _, r.
    split; [reflexivity|].
    split; [now apply getItem_unique|]. rewrite Hsets. simpl.
    do 4 (split; [reflexivity|]). split; [intros; reflexivity|].
    split; [reflexivity|exact Hok].
  - assert (Hrun : itemService.updateItem (id r) patch w =
              (Return (Db.header (Db.count_if (Db.has_id (id r)) (items (store w)))
                         (Db.count_if (fun x => Db.has_id (id r) x
                                                && negb (Db.same_data x
                                                           (foldl Db.assign x (s0 :: sets))))
                                      (items (store w))) 0),
               {| store := {| items := map (Db.update_row (now w) (s0 :: sets) (id r))
                                           (items (store w));
                              next_id := next_id (store w) |};
                  now := now w;
                  trace := trace w ++ [SqlExecute (SelectById (id r));
                                       SqlExecute (UpdateItem (s0 :: sets) (id r))] |})).
    { unfold itemService.updateItem, bind. rewrite Hg.
      unfold itemRepo.update. rewrite Hsets.
      unfold pool_execute, bind, emit, ret, after.
      cbn -[Db.count_if Db.update_row foldl]. now flatten_trace. }
    unfold w1. rewrite Hrun. cbn [snd].
    destruct (update_row_matched (now w) patch r) as (H1 & H2 & H3 & H4).
    rewrite Hsets in H1, H2, H3, H4.
    eexists _, (Db.update_row (now w) (s0 :: sets) (id r) r).
    split; [reflexivity|]. split; [|split; [|split; [|split; [|split; [|split; [|split]]]]]].
    + apply getItem_unique. unfold rows_with. cbn [store items].
      rewrite filter_has_id_update. unfold rows_with in Hr. now rewrite Hr.
    + exact H1.
    + exact H2.
    + exact H3.
    + exact H4.
    + intros key' Hne. unfold rows_with. cbn [store items].
      rewrite filter_has_id_update. now apply map_update_row_other.
    + cbn [store items]. now rewrite length_map.
    + replace {| items := _; next_id := _ |}
        with (Db.run (now w) (UpdateItem (s0 :: sets) (id r)) (store w)).2 by reflexivity.
      now apply run_keeps_store_ok.
Qed.

(** X11. On a table with distinct identifiers, [deleteItem] on an existing
    row looks it up, sends one DELETE that affects one row, and leaves a
    table without that identifier, one row shorter, where every other
    lookup is as before. The handler answers 204 without a body. *)
Theorem X11_delete_removes_one_row (key : Z) (w : World) :
  store_ok (store w) ->
  row_exists key (store w) ->
  let w1 := (itemService.deleteItem key w).2 in
  exists h,
    itemService.deleteItem key w = (Return h, w1)
    /\ affectedRows h = 1
    /\ ~ row_exists key (store w1)
    /\ (forall key', key' <> key -> rows_with key' (store w1) = rows_with key' (store w))
    /\ S (List.length (items (store w1))) = List.length (items (store w))
    /\ store_ok (store w1)
    /\ deleteItemHandler key w
       = (Return tt, after w1 [ResStatus 204; ResEnd])
    /\ res_status (response_of [ResStatus 204; ResEnd]) = 204
    /\ res_body (response_of [ResStatus 204; ResEnd]) = None
    /\ res_sent (response_of [ResStatus 204; ResEnd]) = true.
Proof.
  intros Hok Hex w1. destruct Hex as [r [Hin Hid]]. subst key.
  pose proof (rows_with_unique _ _ Hok Hin) as Hr.
  pose proof (getItem_unique _ _ _ Hr) as Hg.
  unfold rows_with in Hr.
  assert (Hrun : itemService.deleteItem (id r) w =
            (Return (Db.header (Db.count_if (Db.has_id (id r)) (items (store w))) 0 0),
             {| store := {| items := List.filter (fun x => negb (Db.has_id (id r) x))
                                                 (items (store w));
                            next_id := next_id (store w) |};
                now := now w;
                trace := trace w ++ [SqlExecute (SelectById (id r));
                                     SqlExecute (DeleteItem (id r))] |})).
  { unfold itemService.deleteItem, bind. rewrite Hg.
    unfold itemRepo.remove, pool_execute, bind, emit, ret, after.
    cbn -[Db.count_if List.filter]. now flatten_trace. }
  unfold w1. rewrite Hrun. cbn [snd]. eexists.
  split; [reflexivity|]. split; [|split; [|split; [|split; [|split; [|split]]]]].
  - cbn. now rewrite (count_if_length _ _ _ Hr).
  - cbn [store items]. apply deleted_row_gone.
  - intros key' Hne. unfold rows_with. cbn [store items]. now apply filter_has_id_delete.
  - cbn [store items].
    pose proof (length_filter_split (Db.has_id (id r)) (items (store w))) as Hs.
    rewrite Hr in Hs. simpl in Hs. lia.
  - replace {| items := _; next_id := _ |}
      with (Db.run (now w) (DeleteItem (id r)) (store w)).2 by reflexivity.
    now apply run_keeps_store_ok.
  - unfold deleteItemHandler, bind. rewrite Hrun. unfold emit, after. cbn -[List.filter].
    now flatten_trace.
  - repeat split; reflexivity.
Qed.

(** ** The query schema of the list route *)

Section QuerySchema.

Context `{RT : Runtime}.
Variable env : Env.

Lemma positive_int_optional_spec (path : string) (raw : option string) :
  match positive_int_optional path raw with
  | ([], v) => count_ok raw /\ v = raw ≫= int_of
  | (_ :: _, _) => ~ count_ok raw
  end.
Proof.
  unfold positive_int_optional, count_ok, int_of. destruct raw as [s|]; simpl.
  - destruct (Number s) as [|z|[|]] eqn:Hn.
    + intros Hc. destruct (Hc s eq_refl) as [z [Hz _]]. congruence.
    + destruct (Z.ltb_spec 0 z).
      * split; [|reflexivity]. intros s' Hs'. injection Hs' as <-. now exists z.
      * intros Hc. destruct (Hc s eq_refl) as [z' [Hz Hp]].
        assert (z' = z) by congruence. lia.
    + intros Hc. destruct (Hc s eq_refl) as [z [Hz _]]. congruence.
    + intros Hc. destruct (Hc s eq_refl) as [z [Hz _]]. congruence.
  - split; [|reflexivity]. intros s Hs. discriminate.
Qed.

Lemma enum_optional_spec (values : list string) (path : string) (raw : option string) :
  match enum_optional values path raw with
  | ([], v) => enum_ok values raw /\ v = raw
  | (_ :: _, _) => ~ enum_ok values raw
  end.
Proof.
  unfold enum_optional, enum_ok. destruct raw as [s|]; simpl.
  - destruct (Js.includes values s) eqn:Hi.
    + split; [|reflexivity]. intros s' Hs'. injection Hs' as <-. now apply includes_cases.
    + intros Hc. specialize (Hc s eq_refl). apply In_includes in Hc. congruence.
  - split; [|reflexivity]. intros s Hs. discriminate.
Qed.

Lemma list_query_parse_spec (q : gmap string string) :
  match ListItemsQuerySchema_parse q with
  | Return parsed =>
      list_query_ok q
      /\ q_limit parsed = (q !! "limit") ≫= int_of
      /\ q_page parsed = (q !! "page") ≫= int_of
      /\ q_sortBy parsed = q !! "sortBy"
      /\ q_sortDirection parsed = q !! "sortDirection"
  | Throw e =>
      ~ list_query_ok q /\ err_class e = ClsZodError /\ err_issues e <> []
  end.
Proof.
  unfold ListItemsQuerySchema_parse, list_query_ok.
  pose proof (positive_int_optional_spec "limit" (q !! "limit")) as H1.
  pose proof (positive_int_optional_spec "page" (q !! "page")) as H2.
  pose proof (enum_optional_spec ItemSortFieldEnum "sortBy" (q !! "sortBy")) as H3.
  pose proof (enum_optional_spec SortDirectionEnum "sortDirection" (q !! "sortDirection")) as H4.
  destruct (positive_int_optional "limit" (q !! "limit")) as [[|a1 i1] l];
    destruct (positive_int_optional "page" (q !! "page")) as [[|a2 i2] p];
    destruct (enum_optional ItemSortFieldEnum "sortBy" (q !! "sortBy")) as [[|a3 i3] sb];
    destruct (enum_optional SortDirectionEnum "sortDirection" (q !! "sortDirection"))
      as [[|a4 i4] sd];
    cbn [app];
    try (split; [tauto|]; split; [reflexivity|]; discriminate).
  destruct H1 as [? ->], H2 as [? ->], H3 as [? ->], H4 as [? ->]. cbn. tauto.
Qed.

(** X12. The list query is accepted exactly when [limit] and [page], if
    given, coerce to positive integers, [sortBy], if given, is one of
    "id", "name", "created_at" and "updated_at", and [sortDirection], if
    given, is "asc" or "desc" in lower case. The parsed query holds those
    values; a rejected one throws a [ZodError] with at least one issue. Any
    other parameter is ignored. *)
Theorem X12_list_query_accepted_iff (q : gmap string string) :
  let acceptable :=
    (forall s, q !! "limit" = Some s -> exists z, Number s = Js.Int z /\ 0 < z)
    /\ (forall s, q !! "page" = Some s -> exists z, Number s = Js.Int z /\ 0 < z)
    /\ (forall s, q !! "sortBy" = Some s -> In s ["id"; "name"; "created_at"; "updated_at"])
    /\ (forall s, q !! "sortDirection" = Some s -> In s ["asc"; "desc"]) in
  match ListItemsQuerySchema_parse q with
  | Return parsed =>
      acceptable
      /\ q_limit parsed = (q !! "limit") ≫= int_of
      /\ q_page parsed = (q !! "page") ≫= int_of
      /\ q_sortBy parsed = q !! "sortBy"
      /\ q_sortDirection parsed = q !! "sortDirection"
  | Throw e =>
      ~ acceptable /\ err_class e = ClsZodError /\ err_issues e <> []
  end
  /\ forall k v,
       ~ In k ["limit"; "page"; "sortBy"; "sortDirection"] ->
       ListItemsQuerySchema_parse (<[k := v]> q) = ListItemsQuerySchema_parse q.
Proof.
  split; [exact (list_query_parse_spec q)|].
  intros k v Hk. unfold ListItemsQuerySchema_parse.
  rewrite !lookup_insert_ne; [reflexivity|..]; intros ->; apply Hk; simpl; tauto.
Qed.

(** X13. Behind the gate, [GET /api/items] answers 200 with two reads of
    the store when the query is acceptable, and 400 "Données invalides"
    with the list of issues and no statement at all when it is not. *)
Theorem X13_list_route_200_or_400
        (request : Request) (w : World) (t : string) (payload : AuthPayload) :
  env_valid env ->
  authenticated_as env request w t payload ->
  (list_query_ok (query request) ->
   exists col dir lim off body,
     GET_items env request w =
       (Return tt,
        after w [JwtVerify t (JWT_SECRET env);
                 SqlExecute (SelectPage col dir lim off); SqlExecute SelectCount;
                 ResJson (successResponse body)])
     /\ 0 < lim <= MAX_PAGE_LIMIT env /\ 0 <= off)
  /\ (~ list_query_ok (query request) ->
      exists issues,
        issues <> []
        /\ GET_items env request w =
             (Return tt, after w (JwtVerify t (JWT_SECRET env) :: validation_answer issues))).
Proof.
  intros Henv (He & Ht & Hv).
  destruct (authMiddleware_passes env request w t payload He Ht Hv) as [request' [Ha Hq']].
  pose proof (list_query_parse_spec (query request)) as Hspec.
  destruct (ListItemsQuerySchema_parse (query request)) as [parsed|e] eqn:Hp.
  - destruct Hspec as [Hok _]. split; [|intros Hno; contradiction]. intros _.
    destruct (parse_accepts (query request) parsed Hp) as (Hvalid & _ & _).
    destruct (number_if_truthy_valid _ _ Hvalid) as [Hnp Hnl].
    destruct Hvalid as [Hvp Hvl].
    pose proof (pageLimit_positive env (q_limit parsed) Henv Hvl) as HL.
    assert (0 < Js.nullish (q_page parsed) 1) as Hpage.
    { destruct (q_page parsed) as [p|]; simpl; [now apply Hvp|lia]. }
    destruct (listItems_run env (q_page parsed) (q_limit parsed) (q_sortBy parsed)
                (q_sortDirection parsed) (after w [JwtVerify t (JWT_SECRET env)])
                ltac:(lia) (offset_nonneg _ _ Hpage HL)) as [sorted (_ & _ & Hrun)].
    eexists _, _, _, _, _. split.
    + unfold GET_items, protected, bind. rewrite Ha.
      unfold try_catch, bind, validateQuery_ListItems. rewrite Hq', Hp.
      unfold listItemsHandler, bind. rewrite Hnp, Hnl, Hrun.
      unfold emit, after, successResponse.
      cbn -[Z.mul Z.sub Math_ceil_div take drop Z.to_nat Z.of_nat List.length].
      flatten_trace. reflexivity.
    + split; [|exact (offset_nonneg _ _ Hpage HL)].
      destruct Henv as (_ & _ & Hm). unfold itemService.pageLimit_of in *. lia.
  - destruct Hspec as (Hno & Hc & Hi). split; [intros Hok; contradiction|]. intros _.
    exists (err_issues e). split; [exact Hi|].
    unfold GET_items, protected, bind. rewrite Ha.
    unfold try_catch, bind, validateQuery_ListItems. rewrite Hq', Hp.
    unfold errorMiddleware, instanceof, after, bind, emit, validation_answer. rewrite Hc.
    cbn. now flatten_trace.
Qed.

End QuerySchema.

(** ** Body and parameter schemas, and the routes behind them *)

Lemma string_optional_spec (path : string) (v : option Json) :
  match string_optional path v with
  | inr d => v = option_map JStr d
  | inl issues => issues <> [] /\ forall d, v <> option_map JStr d
  end.
Proof.
  unfold string_optional. destruct v as [[| | |s| |]|];
    try (split; [discriminate|intros [d|]; discriminate]); reflexivity.
Qed.

Lemma string_min1_optional_spec (path : string) (v : option Json) :
  match string_min1_optional path v with
  | inr n => v = option_map JStr n /\ n <> Some ""
  | inl issues => issues <> [] /\ forall n, v = option_map JStr n -> n = Some ""
  end.
Proof.
  unfold string_min1_optional. destruct v as [[| | |s| |]|];
    try (split; [discriminate|intros [n|]; discriminate]).
  - destruct ((String.length s <? 1)%nat) eqn:Hl.
    + split; [discriminate|]. intros [n|] Hn; [|discriminate]. injection Hn as <-.
      destruct s; [reflexivity|discriminate].
    + split; [reflexivity|]. apply length_lt_1 in Hl. congruence.
  - split; [reflexivity|discriminate].
Qed.

Lemma option_map_JStr_inj (a b : option string) : option_map JStr a = option_map JStr b -> a = b.
Proof. destruct a, b; simpl; congruence. Qed.

Lemma CreateItemSchema_parse_spec (body : option Json) :
  match CreateItemSchema_parse body with
  | Return input => create_body_ok body (create_name input) (create_description input)
  | Throw e =>
      err_class e = ClsZodError /\ err_issues e <> []
      /\ forall n d, ~ create_body_ok body n d
  end.
Proof.
  unfold CreateItemSchema_parse, create_body_ok.
  destruct body as [[| | | | |fields]|];
    try (split; [reflexivity|split; [discriminate|intros n d (f & Hf & _); discriminate]]).
  pose proof (string_min1_spec "name" (json_field "name" fields)) as Hn.
  pose proof (string_optional_spec "description" (json_field "description" fields)) as Hd.
  destruct (string_min1 "name" (json_field "name" fields)) as [i1|n];
    destruct (string_optional "description" (json_field "description" fields)) as [i2|d].
  - destruct Hn as [Hi Hn]. split; [reflexivity|]. split.
    + simpl. destruct i1; [contradiction|discriminate].
    + intros n d (f & Hf & Hname & Hne & _). injection Hf as <-. now apply Hne, Hn.
  - destruct Hn as [Hi Hn]. split; [reflexivity|]. split.
    + simpl. destruct i1; [contradiction|discriminate].
    + intros n d' (f & Hf & Hname & Hne & _). injection Hf as <-. now apply Hne, Hn.
  - destruct Hd as [Hi Hd]. split; [reflexivity|]. split.
    + simpl. destruct i2; [contradiction|discriminate].
    + intros n' d (f & Hf & _ & _ & Hdesc). injection Hf as <-. now apply (Hd d).
  - destruct Hn as [Hn Hne]. exists fields. simpl. auto.
Qed.

Lemma UpdateItemSchema_parse_spec (body : option Json) :
  match UpdateItemSchema_parse body with
  | Return patch => update_body_ok body patch
  | Throw e =>
      err_class e = ClsZodError /\ err_issues e <> []
      /\ forall patch, ~ update_body_ok body patch
  end.
Proof.
  unfold UpdateItemSchema_parse, update_body_ok.
  destruct body as [[| | | | |fields]|];
    try (split; [reflexivity|split; [discriminate|intros patch (f & Hf & _); discriminate]]).
  pose proof (string_min1_optional_spec "name" (json_field "name" fields)) as Hn.
  pose proof (string_optional_spec "description" (json_field "description" fields)) as Hd.
  destruct (string_min1_optional "name" (json_field "name" fields)) as [i1|n];
    destruct (string_optional "description" (json_field "description" fields)) as [i2|d].
  - destruct Hn as [Hi Hn]. split; [reflexivity|]. split.
    + simpl. destruct i1; [contradiction|discriminate].
    + intros patch (f & Hf & Hname & Hne & _). injection Hf as <-. now apply Hne, Hn.
  - destruct Hn as [Hi Hn]. split; [reflexivity|]. split.
    + simpl. destruct i1; [contradiction|discriminate].
    + intros patch (f & Hf & Hname & Hne & _). injection Hf as <-. now apply Hne, Hn.
  - destruct Hd as [Hi Hd]. split; [reflexivity|]. split.
    + simpl. destruct i2; [contradiction|discriminate].
    + intros patch (f & Hf & _ & _ & Hdesc). injection Hf as <-.
      now apply (Hd (patch_description patch)).
  - destruct Hn as [Hn Hne]. exists fields. simpl. auto.
Qed.

Section ParamSchema.

Context `{RT : Runtime}.

Lemma IdParamSchema_parse_spec (raw_id : string) :
  match IdParamSchema_parse raw_id with
  | Return key => id_ok raw_id key
  | Throw e =>
      err_class e = ClsZodError /\ err_issues e <> []
      /\ forall key, ~ id_ok raw_id key
  end.
Proof.
  unfold IdParamSchema_parse, positive_int, id_ok.
  destruct (Number raw_id) as [|z|[|]].
  - split; [reflexivity|]. split; [discriminate|]. intros key [Hk _]. discriminate.
  - destruct (Z.ltb_spec 0 z).
    + split; [reflexivity|assumption].
    + split; [reflexivity|]. split; [discriminate|]. intros key [Hk Hp].
      injection Hk as <-. lia.
  - split; [reflexivity|]. split; [discriminate|]. intros key [Hk _]. discriminate.
  - split; [reflexivity|]. split; [discriminate|]. intros key [Hk _]. discriminate.
Qed.

End ParamSchema.

Section RoutesMore.

Context `{RT : Runtime}.
Variable env : Env.

(** A route whose validation throws a [ZodError] answers 400 with the
    issues, right after the gate. *)
Lemma protected_validation_error
      (request : Request) (w : World) (t : string) (payload : AuthPayload)
      (route : Request -> M unit) (e : JsError) :
  authenticated_as env request w t payload ->
  (forall req w', route req w' = (Throw e, w')) ->
  err_class e = ClsZodError ->
  protected env request route w =
    (Return tt, after w (JwtVerify t (JWT_SECRET env) :: validation_answer (err_issues e))).
Proof.
  intros (He & Ht & Hv) Hroute Hc.
  destruct (authMiddleware_passes env request w t payload He Ht Hv) as [request' [Ha _]].
  unfold protected, bind. rewrite Ha. unfold try_catch. rewrite Hroute.
  unfold errorMiddleware, instanceof, after, bind, emit, validation_answer. rewrite Hc.
  cbn. now flatten_trace.
Qed.

Lemma protected_runs
      (request : Request) (w : World) (t : string) (payload : AuthPayload)
      (handler : M unit) :
  authenticated_as env request w t payload ->
  protected env request (fun _ => handler) w =
    try_catch handler (errorMiddleware env) (after w [JwtVerify t (JWT_SECRET env)]).
Proof.
  intros (He & Ht & Hv).
  destruct (authMiddleware_passes env request w t payload He Ht Hv) as [request' [Ha _]].
  unfold protected, bind. now rewrite Ha.
Qed.

(** X14. Behind the gate, [POST /api/items] inserts exactly when the body
    is a JSON object with a non-empty string [name] and a [description]
    that is absent or a string: it then sends one INSERT with those values
    (NULL for no description) and answers 201 with the new identifier. Any
    other body (none, not an object, [name] missing, empty or not a string,
    [description] null or not a string) is answered 400 with the issues
    and nothing is sent to the store. *)
Theorem X14_create_route
        (request : Request) (body : option Json) (w : World) (t : string) (payload : AuthPayload) :
  authenticated_as env request w t payload ->
  (forall n d,
      create_body_ok body n d ->
      route_createItem env request body w =
        (Return tt,
         {| store := {| items := items (store w)
                                 ++ [{| id := next_id (store w); name := n; description := d;
                                        created_at := now w; updated_at := now w |}];
                        next_id := next_id (store w) + 1 |};
            now := now w;
            trace := trace w ++
              [JwtVerify t (JWT_SECRET env); SqlExecute (InsertItem n d); ResStatus 201;
               ResJson (successResponse [("id", JNum (next_id (store w)))])] |}))
  /\ ((forall n d, ~ create_body_ok body n d) ->
      exists issues,
        issues <> []
        /\ route_createItem env request body w =
             (Return tt, after w (JwtVerify t (JWT_SECRET env) :: validation_answer issues))).
Proof.
  intros Hauth.
  pose proof (CreateItemSchema_parse_spec body) as Hspec.
  destruct (CreateItemSchema_parse body) as [input|e] eqn:Hp.
  - split; [|intros Hno; exfalso; exact (Hno _ _ Hspec)].
    intros n d (f & Hf & Hn & Hne & Hd).
    destruct Hspec as (f' & Hf' & Hn' & _ & Hd').
    rewrite Hf in Hf'. injection Hf' as <-.
    assert (create_name input = n) as En by congruence.
    assert (create_description input = d) as Ed.
    { apply option_map_JStr_inj. congruence. }
    unfold route_createItem. rewrite (protected_runs request w t payload _ Hauth).
    unfold try_catch, bind, validateBody. cbn [after store now trace]. rewrite Hp, En, Ed.
    unfold createItemHandler, itemService.createItem, itemRepo.create, pool_execute,
      bind, emit, ret.
    cbn. now flatten_trace.
  - destruct Hspec as (Hc & Hi & Hno). split; [intros n d Hok; exfalso; exact (Hno n d Hok)|].
    intros _. exists (err_issues e). split; [exact Hi|].
    unfold route_createItem.
    apply (protected_validation_error request w t payload _ e Hauth); [|exact Hc].
    intros req w'. unfold bind, validateBody. now rewrite Hp.
Qed.

(** X15. Behind the gate and with a positive integer [:id],
    [PATCH /api/items/:id] runs the update with the fields of the body: the
    patch has a [name] or a [description] exactly when the body has one,
    keys other than these two are dropped. So a body without either (the
    empty object, or unknown keys only) on an existing row answers 200
    after the lookup alone, with the table unchanged; and a body whose
    [name] is empty or not a string, or whose [description] is not a
    string, is answered 400 before anything is sent to the store. *)
Theorem X15_update_route
        (request : Request) (raw_id : string) (key : Z) (body : option Json)
        (w : World) (t : string) (payload : AuthPayload) :
  authenticated_as env request w t payload ->
  id_ok raw_id key ->
  (forall patch,
      update_body_ok body patch ->
      route_updateItem env request raw_id body w =
        try_catch (updateItemHandler key patch) (errorMiddleware env)
                  (after w [JwtVerify t (JWT_SECRET env)]))
  /\ (forall fields,
         body = Some (JObj fields) ->
         json_field "name" fields = None ->
         json_field "description" fields = None ->
         row_exists key (store w) ->
         route_updateItem env request raw_id body w =
           (Return tt, after w [JwtVerify t (JWT_SECRET env); SqlExecute (SelectById key);
                                ResJson (successResponse [])]))
  /\ ((forall patch, ~ update_body_ok body patch) ->
      exists issues,
        issues <> []
        /\ route_updateItem env request raw_id body w =
             (Return tt, after w (JwtVerify t (JWT_SECRET env) :: validation_answer issues))).
Proof.
  intros Hauth Hid.
  pose proof (IdParamSchema_parse_spec raw_id) as Hids.
  destruct (IdParamSchema_parse raw_id) as [key'|e'] eqn:Hpid;
    [|destruct Hids as (_ & _ & Hno); exfalso; exact (Hno key Hid)].
  assert (key' = key) as -> by (destruct Hid, Hids; congruence).
  pose proof (UpdateItemSchema_parse_spec body) as Hspec.
  assert (Hgood : forall patch, UpdateItemSchema_parse body = Return patch ->
            route_updateItem env request raw_id body w =
              try_catch (updateItemHandler key patch) (errorMiddleware env)
                        (after w [JwtVerify t (JWT_SECRET env)])).
  { intros patch Hp. unfold route_updateItem.
    rewrite (protected_runs request w t payload _ Hauth).
    unfold try_catch, bind at 1 2, validateParams_Id, validateBody. now rewrite Hpid, Hp. }
  assert (Hsame : forall p1 p2, update_body_ok body p1 -> update_body_ok body p2 -> p1 = p2).
  { intros [n1 d1] [n2 d2] (f1 & Hf1 & Hn1 & _ & Hd1) (f2 & Hf2 & Hn2 & _ & Hd2).
    rewrite Hf1 in Hf2. injection Hf2 as <-. simpl in *.
    f_equal; apply option_map_JStr_inj; congruence. }
  destruct (UpdateItemSchema_parse body) as [patch0|e] eqn:Hp.
  - split; [|split].
    + intros patch Hok. rewrite (Hsame patch patch0 Hok Hspec). now apply Hgood.
    + intros fields Hb Hn Hd Hex.
      assert (update_body_ok body empty_patch) as Hok.
      { exists fields. simpl. repeat split; auto; try discriminate. }
      rewrite <- (Hsame empty_patch patch0 Hok Hspec) in Hgood.
      rewrite (Hgood empty_patch eq_refl).
      destruct (getItem_found key (after w [JwtVerify t (JWT_SECRET env)]) Hex)
        as [item (Hg & _)].
      unfold try_catch, updateItemHandler, itemService.updateItem, bind. rewrite Hg.
      unfold itemRepo.update, emit, ret, after. cbn. now flatten_trace.
    + intros Hno. exfalso. exact (Hno _ Hspec).
  - destruct Hspec as (Hc & Hi & Hno). split; [|split].
    + intros patch Hok. exfalso. exact (Hno patch Hok).
    + intros fields Hb Hn Hd _. exfalso. apply (Hno empty_patch).
      exists fields. simpl. repeat split; auto; try discriminate.
    + intros _. exists (err_issues e). split; [exact Hi|].
      unfold route_updateItem.
      apply (protected_validation_error request w t payload _ e Hauth); [|exact Hc].
      intros req w'. unfold bind, validateParams_Id, validateBody. now rewrite Hpid, Hp.
Qed.

(** X16. On the item routes an [:id] that does not coerce to a positive
    integer never reaches the store: GET, PATCH and DELETE answer 400 with
    the issues. With a positive integer, [GET /api/items/:id] sends one
    lookup and answers 200 with the row when there is one, 404 "Item
    introuvable" when there is none. *)
Theorem X16_id_routes
        (request : Request) (raw_id : string) (w : World) (t : string) (payload : AuthPayload) :
  authenticated_as env request w t payload ->
  ((forall key, ~ id_ok raw_id key) ->
   exists issues,
     issues <> []
     /\ route_getItem env request raw_id w =
          (Return tt, after w (JwtVerify t (JWT_SECRET env) :: validation_answer issues))
     /\ route_deleteItem env request raw_id w =
          (Return tt, after w (JwtVerify t (JWT_SECRET env) :: validation_answer issues))
     /\ forall body,
          route_updateItem env request raw_id body w =
            (Return tt, after w (JwtVerify t (JWT_SECRET env) :: validation_answer issues)))
  /\ (forall key,
         id_ok raw_id key -> row_exists key (store w) ->
         exists item,
           In item (items (store w)) /\ id item = key
           /\ route_getItem env request raw_id w =
                (Return tt, after w [JwtVerify t (JWT_SECRET env); SqlExecute (SelectById key);
                                     ResJson (successResponse [("data", item_json item)])]))
  /\ (forall key,
         id_ok raw_id key -> ~ row_exists key (store w) ->
         route_getItem env request raw_id w =
           (Return tt, after w [JwtVerify t (JWT_SECRET env); SqlExecute (SelectById key);
                                ResStatus 404;
                                ResJson (errorResponse "Item introuvable" None)])).
Proof.
  intros Hauth.
  pose proof (IdParamSchema_parse_spec raw_id) as Hids.
  destruct (IdParamSchema_parse raw_id) as [key0|e] eqn:Hpid.
  - split; [intros Hno; exfalso; exact (Hno key0 Hids)|].
    assert (Hrun : route_getItem env request raw_id w =
              try_catch (getItemHandler key0) (errorMiddleware env)
                        (after w [JwtVerify t (JWT_SECRET env)])).
    { unfold route_getItem. rewrite (protected_runs request w t payload _ Hauth).
      unfold try_catch, bind at 1, validateParams_Id. now rewrite Hpid. }
    split.
    + intros key Hid Hex. assert (key0 = key) as -> by (destruct Hid, Hids; congruence).
      destruct (getItem_found key (after w [JwtVerify t (JWT_SECRET env)]) Hex)
        as [item (Hg & Hi & Hin)].
      exists item. split; [exact Hin|]. split; [exact Hi|].
      rewrite Hrun. unfold try_catch, getItemHandler, bind. rewrite Hg.
      unfold emit, after. cbn. now flatten_trace.
    + intros key Hid Hno. assert (key0 = key) as -> by (destruct Hid, Hids; congruence).
      rewrite Hrun. unfold try_catch, getItemHandler, bind.
      rewrite (getItem_missing key (after w [JwtVerify t (JWT_SECRET env)]) Hno).
      unfold errorMiddleware, after, bind, emit. cbn. now flatten_trace.
  - destruct Hids as (Hc & Hi & Hno). split; [|split].
    + intros _. exists (err_issues e). split; [exact Hi|]. split; [|split].
      * unfold route_getItem.
        apply (protected_validation_error request w t payload _ e Hauth); [|exact Hc].
        intros req w'. unfold bind, validateParams_Id. now rewrite Hpid.
      * unfold route_deleteItem.
        apply (protected_validation_error request w t payload _ e Hauth); [|exact Hc].
        intros req w'. unfold bind, validateParams_Id. now rewrite Hpid.
      * intros body. unfold route_updateItem.
        apply (protected_validation_error request w t payload _ e Hauth); [|exact Hc].
        intros req w'. unfold bind, validateParams_Id. now rewrite Hpid.
    + intros key Hid _. exfalso. exact (Hno key Hid).
    + intros key Hid _. exfalso. exact (Hno key Hid).
Qed.

(** X17. [POST /api/auth/login] needs no token. A body that is a JSON
    object with a non-empty string [password] goes to the password check;
    any other body is answered 400 with the issues, without calling
    [bcrypt.compare] and without setting a cookie. *)
Theorem X17_login_route (body : option Json) (w : World) :
  (forall password,
      login_body_ok body password ->
      route_login env body w = POST_login env password w)
  /\ ((forall password, ~ login_body_ok body password) ->
      exists issues,
        issues <> []
        /\ route_login env body w = (Return tt, after w (validation_answer issues))
        /\ existsb is_BcryptCompare (validation_answer issues) = false
        /\ res_cookies (response_of (validation_answer issues)) = []
        /\ res_status (response_of (validation_answer issues)) = 400).
Proof.
  pose proof (LoginSchema_parse_spec body) as Hspec.
  destruct (LoginSchema_parse body) as [p0|e] eqn:Hp.
  - split; [|intros Hno; exfalso; exact (Hno _ Hspec)].
    intros password (f & Hf & Hpw & _). destruct Hspec as (f' & Hf' & Hpw' & _).
    rewrite Hf in Hf'. injection Hf' as <-.
    assert (p0 = password) as -> by congruence.
    unfold route_login, POST_login, try_catch, bind at 1, validateBody. now rewrite Hp.
  - destruct Hspec as (Hc & Hi & Hno). split; [intros p Hok; exfalso; exact (Hno p Hok)|].
    intros _. exists (err_issues e). split; [exact Hi|]. split; [|repeat split; reflexivity].
    unfold route_login, try_catch, bind at 1, validateBody. rewrite Hp.
    unfold errorMiddleware, instanceof, after, bind, emit, validation_answer. rewrite Hc.
    cbn. now flatten_trace.
Qed.

End RoutesMore.

(** ** The schema of the environment *)

Section EnvSchemaProps.

Context `{RT : Runtime}.

Lemma positive_int_default_spec (path : string) (d : Z) (raw : option string) :
  0 < d ->
  match positive_int_default path d raw with
  | inr z => 0 < z /\ (raw = None -> z = d) /\ (forall s, raw = Some s -> Number s = Js.Int z)
  | inl issues => exists s, raw = Some s /\ forall z, Number s = Js.Int z -> z <= 0
  end.
Proof.
  intros Hd. unfold positive_int_default, positive_int. destruct raw as [s|].
  - destruct (Number s) as [|z|[|]] eqn:Hn.
    + exists s. split; [reflexivity|]. intros z Hz. congruence.
    + destruct (Z.ltb_spec 0 z).
      * split; [assumption|]. split; [discriminate|]. intros s' Hs'. now injection Hs' as <-.
      * exists s. split; [reflexivity|]. intros z' Hz. assert (z' = z) by congruence. lia.
    + exists s. split; [reflexivity|]. intros z Hz. congruence.
    + exists s. split; [reflexivity|]. intros z Hz. congruence.
  - split; [assumption|]. split; [reflexivity|]. intros s Hs. discriminate.
Qed.

Lemma env_string_min1_spec (path : string) (raw : option string) :
  match env_string_min1 path raw with
  | inr s => raw = Some s /\ s <> ""
  | inl issues => raw = None \/ raw = Some ""
  end.
Proof.
  unfold env_string_min1. destruct raw as [s|]; [|now left].
  destruct ((String.length s <? 1)%nat) eqn:Hl.
  - right. destruct s; [reflexivity|discriminate].
  - split; [reflexivity|]. now apply length_lt_1.
Qed.

Lemma env_string_min1_missing (path : string) (raw : option string) :
  raw = None \/ raw = Some "" ->
  exists code, env_string_min1 path raw = inl [issue path code].
Proof.
  intros [->| ->]; simpl; eexists; reflexivity.
Qed.

(** X18. A configuration that [envSchema] accepts has positive token
    lifetime, default and maximum page sizes, ports and pool size, and
    non-empty signing secret, password hash and database settings, taken
    from the variables of those names; a numeric variable that is not set
    takes its default (3000, 3306, 10, 86400, 10, 100), [NODE_ENV]
    defaults to development, and [CORS_ORIGIN] stays optional. *)
Theorem X18_accepted_environment (penv : gmap string string) (e : FullEnv) :
  envSchema_safeParse penv = inr e ->
  env_valid (core e)
  /\ 0 < PORT e /\ 0 < DB_PORT e /\ 0 < DB_POOL_SIZE e
  /\ (penv !! "JWT_SECRET" = Some (JWT_SECRET (core e)) /\ JWT_SECRET (core e) <> "")
  /\ (penv !! "PASSWORD_HASH" = Some (PASSWORD_HASH (core e)) /\ PASSWORD_HASH (core e) <> "")
  /\ (penv !! "DB_HOST" = Some (DB_HOST e) /\ DB_HOST e <> "")
  /\ (penv !! "DB_USER" = Some (DB_USER e) /\ DB_USER e <> "")
  /\ (penv !! "DB_PASSWORD" = Some (DB_PASSWORD e) /\ DB_PASSWORD e <> "")
  /\ (penv !! "DB_NAME" = Some (DB_NAME e) /\ DB_NAME e <> "")
  /\ (penv !! "NODE_ENV" = None -> NODE_ENV (core e) = Development)
  /\ (penv !! "PORT" = None -> PORT e = 3000)
  /\ (penv !! "DB_PORT" = None -> DB_PORT e = 3306)
  /\ (penv !! "DB_POOL_SIZE" = None -> DB_POOL_SIZE e = 10)
  /\ (penv !! "JWT_EXPIRY" = None -> JWT_EXPIRY (core e) = 86400)
  /\ (penv !! "DEFAULT_PAGE_LIMIT" = None -> DEFAULT_PAGE_LIMIT (core e) = 10)
  /\ (penv !! "MAX_PAGE_LIMIT" = None -> MAX_PAGE_LIMIT (core e) = 100)
  /\ CORS_ORIGIN e = penv !! "CORS_ORIGIN".
Proof.
  unfold envSchema_safeParse. intros Hp.
  pose proof (positive_int_default_spec "PORT" 3000 (penv !! "PORT") ltac:(lia)) as S2.
  pose proof (env_string_min1_spec "DB_HOST" (penv !! "DB_HOST")) as S3.
  pose proof (positive_int_default_spec "DB_PORT" 3306 (penv !! "DB_PORT") ltac:(lia)) as S4.
  pose proof (env_string_min1_spec "DB_USER" (penv !! "DB_USER")) as S5.
  pose proof (env_string_min1_spec "DB_PASSWORD" (penv !! "DB_PASSWORD")) as S6.
  pose proof (env_string_min1_spec "DB_NAME" (penv !! "DB_NAME")) as S7.
  pose proof (positive_int_default_spec "DB_POOL_SIZE" 10 (penv !! "DB_POOL_SIZE") ltac:(lia)) as S8.
  pose proof (env_string_min1_spec "JWT_SECRET" (penv !! "JWT_SECRET")) as S9.
  pose proof (env_string_min1_spec "PASSWORD_HASH" (penv !! "PASSWORD_HASH")) as S10.
  pose proof (positive_int_default_spec "JWT_EXPIRY" 86400 (penv !! "JWT_EXPIRY") ltac:(lia)) as S11.
  pose proof (positive_int_default_spec "DEFAULT_PAGE_LIMIT" 10 (penv !! "DEFAULT_PAGE_LIMIT")
                ltac:(lia)) as S12.
  pose proof (positive_int_default_spec "MAX_PAGE_LIMIT" 100 (penv !! "MAX_PAGE_LIMIT")
                ltac:(lia)) as S13.
  assert (S1 : match node_env_default (penv !! "NODE_ENV") with
               | inr n => penv !! "NODE_ENV" = None -> n = Development
               | inl _ => True
               end).
  { unfold node_env_default. destruct (penv !! "NODE_ENV") as [s|]; [|reflexivity].
    repeat (destruct (String.eqb s _); [discriminate|]). exact I. }
  destruct (node_env_default _); [discriminate|].
  destruct (positive_int_default "PORT" _ _); [discriminate|].
  destruct (env_string_min1 "DB_HOST" _); [discriminate|].
  destruct (positive_int_default "DB_PORT" _ _); [discriminate|].
  destruct (env_string_min1 "DB_USER" _); [discriminate|].
  destruct (env_string_min1 "DB_PASSWORD" _); [discriminate|].
  destruct (env_string_min1 "DB_NAME" _); [discriminate|].
  destruct (positive_int_default "DB_POOL_SIZE" _ _); [discriminate|].
  destruct (env_string_min1 "JWT_SECRET" _); [discriminate|].
  destruct (env_string_min1 "PASSWORD_HASH" _); [discriminate|].
  destruct (positive_int_default "JWT_EXPIRY" _ _); [discriminate|].
  destruct (positive_int_default "DEFAULT_PAGE_LIMIT" _ _); [discriminate|].
  destruct (positive_int_default "MAX_PAGE_LIMIT" _ _); [discriminate|].
  injection Hp as <-. unfold env_valid. cbn.
  destruct S2 as (? & ? & _), S4 as (? & ? & _), S8 as (? & ? & _), S11 as (? & ? & _),
    S12 as (? & ? & _), S13 as (? & ? & _).
  repeat split; try tauto; try assumption.
Qed.

(** X19. A required variable ([DB_HOST], [DB_USER], [DB_PASSWORD],
    [DB_NAME], [JWT_SECRET], [PASSWORD_HASH]) that is not set, or set to the
    empty string, makes [envSchema] refuse the environment, with an issue
    that names the variable. *)
Theorem X19_missing_required_variable (penv : gmap string string) (v : string) :
  In v ["DB_HOST"; "DB_USER"; "DB_PASSWORD"; "DB_NAME"; "JWT_SECRET"; "PASSWORD_HASH"] ->
  penv !! v = None \/ penv !! v = Some "" ->
  exists issues code,
    envSchema_safeParse penv = inl issues /\ In (issue v code) issues.
Proof.
  intros Hv Hmiss. unfold envSchema_safeParse.
  simpl in Hv.
  destruct Hv as [<-|[<-|[<-|[<-|[<-|[<-|[]]]]]]];
    match type of Hmiss with
    | penv !! ?p = None \/ _ =>
        destruct (env_string_min1_missing p (penv !! p) Hmiss) as [code Hc]; rewrite Hc
    end;
    repeat match goal with
           | |- context [match ?x with inl _ => _ | inr _ => _ end] =>
               is_var x || (let r := fresh "r" in destruct x as [r|r])
           end.
  all: eexists _, code; (split; [reflexivity|]); cbn [issues_of];
    repeat first [ now left | apply in_or_app; first [ left; now left | right ] ].
Qed.

End EnvSchemaProps.

(** ** The properties above on the sample store and runtime *)

Lemma sample_store_ok : store_ok (store Sample.world).
Proof.
  split.
  - apply (bool_decide_unpack _). vm_compute. exact I.
  - repeat constructor.
Defined.

Lemma sample_authenticated :
  authenticated_as (RT:=Sample.runtime) Sample.env Sample.list_plain Sample.world
                   "good-token" {| authenticated := true; timestamp := 1000 |}.
Proof.
  split; [reflexivity|]. split; [discriminate|reflexivity].
Defined.

Lemma sample_env_valid : env_valid Sample.env.
Proof. unfold env_valid. simpl. lia. Defined.

Lemma X1_errorMiddleware_answers_or_throws_witness :
  errorMiddleware Sample.env (HttpError 404 "Item introuvable") Sample.world
  = (Return tt,
     after Sample.world
       [ResStatus 404;
        ResJson (JObj [("success", JBool false); ("error", JStr "Item introuvable")])])
  /\ errorMiddleware Sample.env (HttpError 1000 "out of range") Sample.world
     = (Throw (RangeError ("Invalid status code: " +:+ pretty 1000
                           +:+ ". Status code must be greater than 99 and less than 1000.")),
        Sample.world).
Proof.
  split.
  - apply (X1_errorMiddleware_answers_or_throws Sample.env (HttpError 404 "Item introuvable")
             Sample.world); [reflexivity|simpl; lia].
  - apply (X1_errorMiddleware_answers_or_throws Sample.env (HttpError 1000 "out of range")
             Sample.world); [reflexivity|simpl; lia].
Defined.

Lemma X5_findAll_order_by_is_whitelisted_witness :
  exists col dir,
    adds (itemRepo.findAll 10 0 (Some "1=1; DROP") (Some "Asc")) Sample.world
         [SqlExecute (SelectPage col dir 10 0)]
    /\ col = "created_at" /\ dir = "ASC".
Proof.
  destruct (X5_findAll_order_by_is_whitelisted 10 0 (Some "1=1; DROP") (Some "Asc")
              Sample.world)
    as (col & dir & Ha & _ & _ & _ & Hcol & _ & _ & Hasc & _).
  exists col, dir. split; [exact Ha|]. split.
  - apply (Hcol "1=1; DROP"); [reflexivity|].
    simpl. intros [H|[H|[H|[H|[]]]]]; discriminate.
  - apply (Hasc "Asc"); [reflexivity|]. simpl. tauto.
Defined.

Lemma X6_listItems_only_reads_witness :
  exists r col dir,
    itemService.listItems Sample.env (Some 2) (Some 2) None (Some "Asc") Sample.world
    = (Return r,
       after Sample.world
         [SqlExecute (SelectPage col dir 2 (Js.round_double 2)); SqlExecute SelectCount])
    /\ dir = "ASC".
Proof.
  pose proof (X6_listItems_only_reads Sample.env (Some 2) (Some 2) None (Some "Asc")
                Sample.world sample_env_valid) as H.
  cbv zeta in H.
  destruct H as (r & col & dir & Hrun & _ & _ & _ & Hasc & _).
  - split; intros x Hx; injection Hx as <-; lia.
  - unfold Js.MAX_SAFE_INTEGER. simpl. lia.
  - unfold Js.MAX_SAFE_INTEGER. simpl. lia.
  - exists r, col, dir. split; [exact Hrun|].
    apply (Hasc "Asc"); [reflexivity|]. simpl. tauto.
Defined.

Lemma X8_page_size_witness :
  exists r,
    (itemService.listItems Sample.env (Some 2) (Some 2) None None Sample.world).1 = Return r
    /\ Z.of_nat (List.length (data r))
       = Z.min (limit (pagination r))
               (Z.max 0 (total (pagination r)
                         - Js.mul (Js.sub (page (pagination r)) 1) (limit (pagination r))))
    /\ (total (pagination r) <= Js.MAX_SAFE_INTEGER ->
        Z.of_nat (List.length (data r))
        = Z.min (limit (pagination r))
                (Z.max 0 (total (pagination r)
                          - (page (pagination r) - 1) * limit (pagination r)))).
Proof.
  apply (X8_page_size Sample.env (Some 2) (Some 2) None None Sample.world).
  - exact sample_env_valid.
  - split; intros x Hx; injection Hx as <-; lia.
Defined.

Lemma X9_create_then_get_witness :
  itemService.createItem "kiwi" None Sample.world
  = (Return 4, (itemService.createItem "kiwi" None Sample.world).2).
Proof.
  apply (X9_create_then_get "kiwi" None Sample.world).
  exact sample_store_ok.
Defined.

Lemma X10_update_changes_named_fields_witness :
  exists h r',
    itemService.updateItem 2 {| patch_name := Some "lime"; patch_description := None |}
      Sample.world
    = (Return h,
       (itemService.updateItem 2 {| patch_name := Some "lime"; patch_description := None |}
          Sample.world).2)
    /\ name r' = "lime" /\ description r' = Some "green".
Proof.
  destruct (X10_update_changes_named_fields 2
              {| patch_name := Some "lime"; patch_description := None |}
              Sample.world Sample.row2)
    as (h & r' & Hu & _ & _ & Hn & Hd & _).
  - exact sample_store_ok.
  - simpl. tauto.
  - reflexivity.
  - exists h, r'. split; [exact Hu|]. split; [exact Hn|exact Hd].
Defined.

Lemma X11_delete_removes_one_row_witness :
  exists h,
    itemService.deleteItem 2 Sample.world
    = (Return h, (itemService.deleteItem 2 Sample.world).2)
    /\ affectedRows h = 1.
Proof.
  destruct (X11_delete_removes_one_row 2 Sample.world) as (h & Hd & Ha & _).
  - exact sample_store_ok.
  - exists Sample.row2. simpl. split; [tauto|reflexivity].
  - exists h. split; [exact Hd|exact Ha].
Defined.

Lemma X12_list_query_accepted_iff_witness :
  (exists parsed,
      ListItemsQuerySchema_parse (RT:=Sample.runtime) {[ "page" := "2" ]} = Return parsed
      /\ q_page parsed = Some 2)
  /\ (exists e,
        ListItemsQuerySchema_parse (RT:=Sample.runtime) {[ "sortDirection" := "ASC" ]} = Throw e
        /\ err_issues e <> [])
  /\ ListItemsQuerySchema_parse (RT:=Sample.runtime) (<["debug" := "1"]> {[ "page" := "2" ]})
     = ListItemsQuerySchema_parse (RT:=Sample.runtime) {[ "page" := "2" ]}.
Proof.
  split; [|split].
  - pose proof (proj1 (X12_list_query_accepted_iff (RT:=Sample.runtime) {[ "page" := "2" ]}))
      as H.
    destruct (ListItemsQuerySchema_parse (RT:=Sample.runtime) {[ "page" := "2" ]})
      as [parsed|e] eqn:Hp.
    + exists parsed. split; [reflexivity|]. destruct H as (_ & _ & Hpage & _).
      rewrite Hpage. reflexivity.
    + vm_compute in Hp. discriminate Hp.
  - pose proof (proj1 (X12_list_query_accepted_iff (RT:=Sample.runtime)
                         {[ "sortDirection" := "ASC" ]})) as H.
    destruct (ListItemsQuerySchema_parse (RT:=Sample.runtime) {[ "sortDirection" := "ASC" ]})
      as [parsed|e] eqn:Hp.
    + vm_compute in Hp. discriminate Hp.
    + exists e. split; [reflexivity|]. apply H.
  - apply (X12_list_query_accepted_iff (RT:=Sample.runtime) {[ "page" := "2" ]}).
    simpl. intros [H|[H|[H|[H|[]]]]]; discriminate.
Defined.

Lemma X13_list_route_200_or_400_witness :
  exists col dir lim off body,
    GET_items (RT:=Sample.runtime) Sample.env Sample.list_plain Sample.world =
      (Return tt,
       after Sample.world [JwtVerify "good-token" "secret";
                           SqlExecute (SelectPage col dir lim off); SqlExecute SelectCount;
                           ResJson (successResponse body)])
    /\ 0 < lim <= 100 /\ 0 <= off.
Proof.
  apply (X13_list_route_200_or_400 (RT:=Sample.runtime) Sample.env Sample.list_plain
           Sample.world "good-token" {| authenticated := true; timestamp := 1000 |}).
  - exact sample_env_valid.
  - exact sample_authenticated.
  - repeat split; intros s Hs; discriminate.
Defined.

Lemma X14_create_route_witness :
  (route_createItem (RT:=Sample.runtime) Sample.env Sample.list_plain
     (Some (JObj [("name", JStr "kiwi"); ("colour", JStr "brown")])) Sample.world).1
  = Return tt.
Proof.
  rewrite (proj1 (X14_create_route (RT:=Sample.runtime) Sample.env Sample.list_plain
                    (Some (JObj [("name", JStr "kiwi"); ("colour", JStr "brown")]))
                    Sample.world "good-token" {| authenticated := true; timestamp := 1000 |}
                    sample_authenticated) "kiwi" None).
  - reflexivity.
  - eexists. split; [reflexivity|]. split; [reflexivity|]. split; [discriminate|reflexivity].
Defined.

Lemma X15_update_route_witness :
  route_updateItem (RT:=Sample.runtime) Sample.env Sample.list_plain "2"
    (Some (JObj [("colour", JStr "brown")])) Sample.world
  = (Return tt, after Sample.world [JwtVerify "good-token" "secret"; SqlExecute (SelectById 2);
                                    ResJson (successResponse [])]).
Proof.
  apply (X15_update_route (RT:=Sample.runtime) Sample.env Sample.list_plain "2" 2
           (Some (JObj [("colour", JStr "brown")])) Sample.world "good-token"
           {| authenticated := true; timestamp := 1000 |} sample_authenticated)
    with (fields := [("colour", JStr "brown")]).
  - split; [reflexivity|lia].
  - reflexivity.
  - reflexivity.
  - reflexivity.
  - exists Sample.row2. simpl. split; [tauto|reflexivity].
Defined.

Lemma X16_id_routes_witness :
  route_getItem (RT:=Sample.runtime) Sample.env Sample.list_plain "9" Sample.world
  = (Return tt, after Sample.world [JwtVerify "good-token" "secret"; SqlExecute (SelectById 9);
                                    ResStatus 404;
                                    ResJson (errorResponse "Item introuvable" None)]).
Proof.
  apply (X16_id_routes (RT:=Sample.runtime) Sample.env Sample.list_plain "9" Sample.world
           "good-token" {| authenticated := true; timestamp := 1000 |} sample_authenticated).
  - split; [reflexivity|lia].
  - intros [r [Hin Hid]]. simpl in Hin.
    destruct Hin as [<-|[<-|[<-|[]]]]; discriminate.
Defined.

Lemma X17_login_route_witness :
  route_login (RT:=Sample.runtime) Sample.env
    (Some (JObj [("password", JStr "admin")])) Sample.world
  = POST_login (RT:=Sample.runtime) Sample.env "admin" Sample.world.
Proof.
  apply (X17_login_route (RT:=Sample.runtime) Sample.env
           (Some (JObj [("password", JStr "admin")])) Sample.world).
  eexists. split; [reflexivity|]. split; [reflexivity|discriminate].
Defined.

Lemma X18_accepted_environment_witness :
  exists e,
    envSchema_safeParse (RT:=Sample.runtime)
      (list_to_map [("DB_HOST", "db"); ("DB_USER", "app"); ("DB_PASSWORD", "pw");
                    ("DB_NAME", "items"); ("JWT_SECRET", "secret");
                    ("PASSWORD_HASH", "bcrypt:admin"); ("MAX_PAGE_LIMIT", "50")]) = inr e
    /\ env_valid (core e) /\ DEFAULT_PAGE_LIMIT (core e) = 10.
Proof.
  eexists. split; [vm_compute; reflexivity|].
  match goal with
  | |- env_valid (core ?e) /\ _ =>
      destruct (X18_accepted_environment (RT:=Sample.runtime)
                  (list_to_map [("DB_HOST", "db"); ("DB_USER", "app"); ("DB_PASSWORD", "pw");
                                ("DB_NAME", "items"); ("JWT_SECRET", "secret");
                                ("PASSWORD_HASH", "bcrypt:admin"); ("MAX_PAGE_LIMIT", "50")])
                  e) as (Hv & _)
  end.
  - vm_compute. reflexivity.
  - split; [exact Hv|reflexivity].
Defined.

Lemma X19_missing_required_variable_witness :
  exists issues code,
    envSchema_safeParse (RT:=Sample.runtime) {[ "DB_HOST" := "db" ]} = inl issues
    /\ In (issue "JWT_SECRET" code) issues.
Proof.
  apply (X19_missing_required_variable (RT:=Sample.runtime) {[ "DB_HOST" := "db" ]} "JWT_SECRET").
  - simpl. tauto.
  - left. reflexivity.
Defined.
